(** * OKX lending-rate monitor: the time-series maintenance core

    A shallow embedding of the three TypeScript scripts of the repository
    that touch [data/rates.csv] and the monthly archives:

    - the hourly fetch with monthly rollover ([readCsvData], [writeCsvData],
      [getMonthKey], [performRollover], [fetchLendingRate]), module
      [Rollover];
    - the older hourly fetch of [src/fetchRate.ts], module [Legacy];
    - the current-month backfill ([fetchHistoricalRates],
      [fetchLendingRate]), module [History].

    The JavaScript built-ins the scripts call are modelled in module [JS];
    what depends on the engine and on the host is a parameter of the
    scripts, the class [JS.Runtime], with the instance of module
    [IsoRuntime] for the scenarios. The file system is a map from paths to
    the rows of the store files, in a world that also schedules the
    failures of file operations and logs the operations attempted. *)

From Stdlib Require Import ZArith String Ascii List Lia DecimalString.
From Stdlib Require Import Sorting.Sorted Sorting.Permutation.
From stdpp Require Import gmap strings list.

Local Open Scope string_scope.
Local Open Scope list_scope.
Local Open Scope Z_scope.

(* ===================================================================== *)
(** * JavaScript built-ins *)
(* ===================================================================== *)

Module JS.

(** A JavaScript number that is an integer or [NaN] (the fields of a Date,
    the result of [parseInt]): [None] is [NaN]. *)
Definition Num := option Z.

(** [a === b] on numbers: [NaN] is equal to nothing, itself included. *)
Definition strictEq (a b : Num) : bool :=
  match a, b with
  | Some x, Some y => x =? y
  | _, _ => false
  end.

(** [n + k] for an integer constant [k]. *)
Definition plus (a : Num) (k : Z) : Num := (λ x, x + k) <$> a.

(** [String(n)]. *)
Definition String_of_Z (z : Z) : string := NilZero.string_of_int (Z.to_int z).

Definition String_of_Num (a : Num) : string :=
  match a with
  | Some z => String_of_Z z
  | None => "NaN"
  end.

Fixpoint repeatChar (n : nat) (c : ascii) : string :=
  match n with
  | O => ""
  | S n' => String c (repeatChar n' c)
  end.

(** [s.padStart(len, fill)] for a one-character [fill]. *)
Definition padStart (s : string) (len : nat) (fill : ascii) : string :=
  repeatChar (len - String.length s) fill +:+ s.

(** The decimal digit [n mod 10] as a character. *)
Definition digitChar (n : Z) : ascii := ascii_of_nat (48 + Z.to_nat (n mod 10)).

(** The last [w] decimal digits of [n], most significant first. *)
Fixpoint padDigits (w : nat) (n : Z) : string :=
  match w with
  | O => ""
  | S w' => padDigits w' (n / 10) +:+ String (digitChar n) ""
  end.

(** ** Time values

    A time value is a number of milliseconds since 1970-01-01T00:00:00Z.
    The day and time-within-day arithmetic is the one of the ECMAScript
    specification; the civil date of a day number is computed by era. *)

Definition msPerDay : Z := 86400000.
Definition msPerHour : Z := 3600000.
Definition msPerMinute : Z := 60000.
Definition msPerSecond : Z := 1000.
Definition maxTime : Z := 8640000000000000.

Definition Day (t : Z) : Z := t / msPerDay.
Definition HourFromTime (t : Z) : Z := (t / msPerHour) mod 24.
Definition MinFromTime (t : Z) : Z := (t / msPerMinute) mod 60.
Definition SecFromTime (t : Z) : Z := (t / msPerSecond) mod 60.
Definition msFromTime (t : Z) : Z := t mod msPerSecond.
Definition WeekDay (t : Z) : Z := (Day t + 4) mod 7.

(** Year, month (1..12) and day of month of a day number. *)
Definition civil_from_days (days : Z) : Z * Z * Z :=
  let z := days + 719468 in
  let era := z / 146097 in
  let doe := z - era * 146097 in
  let yoe := (doe - doe / 1460 + doe / 36524 - doe / 146096) / 365 in
  let doy := doe - (365 * yoe + yoe / 4 - yoe / 100) in
  let mp := (5 * doy + 2) / 153 in
  let d := doy - (153 * mp + 2) / 5 + 1 in
  let m := if mp <? 10 then mp + 3 else mp - 9 in
  let y := yoe + era * 400 + (if m <=? 2 then 1 else 0) in
  (y, m, d).

(** The day number of a civil date. *)
Definition days_from_civil (y m d : Z) : Z :=
  let y' := y - (if m <=? 2 then 1 else 0) in
  let era := y' / 400 in
  let yoe := y' - era * 400 in
  let mp := if 2 <? m then m - 3 else m + 9 in
  let doy := (153 * mp + 2) / 5 + d - 1 in
  let doe := yoe * 365 + yoe / 4 - yoe / 100 + doy in
  era * 146097 + doe - 719468.

Definition YearFromTime (t : Z) : Z := fst (fst (civil_from_days (Day t))).
(** Months count from 0, as [getUTCMonth] does. *)
Definition MonthFromTime (t : Z) : Z := snd (fst (civil_from_days (Day t))) - 1.
Definition DateFromTime (t : Z) : Z := snd (civil_from_days (Day t)).

(** [TimeClip]: a time value outside the range of Date is [NaN]. *)
Definition TimeClip (v : Num) : Num :=
  match v with
  | Some t => if Z.abs t <=? maxTime then Some t else None
  | None => None
  end.

(** ** Date objects

    A Date holds a time value or [NaN] (an Invalid Date). *)
Definition Date := option Z.

(** [new Date(n)] for a number [n]. *)
Definition Date_of_Num (v : Num) : Date := TimeClip v.

Definition getTime (d : Date) : Num := d.
Definition getUTCFullYear (d : Date) : Num := YearFromTime <$> d.
Definition getUTCMonth (d : Date) : Num := MonthFromTime <$> d.
Definition getUTCDate (d : Date) : Num := DateFromTime <$> d.
Definition getUTCHours (d : Date) : Num := HourFromTime <$> d.

(** The year of [toISOString]: four digits, or a sign and six digits
    outside 0..9999. *)
Definition isoYear (y : Z) : string :=
  if (0 <=? y) && (y <=? 9999) then padDigits 4 y
  else (if y <? 0 then "-" else "+") +:+ padDigits 6 (Z.abs y).

(** [d.toISOString()]; [None] is the [RangeError] of an Invalid Date. *)
Definition toISOString (d : Date) : option string :=
  match d with
  | None => None
  | Some t =>
      Some (isoYear (YearFromTime t) +:+ "-" +:+ padDigits 2 (MonthFromTime t + 1)
            +:+ "-" +:+ padDigits 2 (DateFromTime t)
            +:+ "T" +:+ padDigits 2 (HourFromTime t)
            +:+ ":" +:+ padDigits 2 (MinFromTime t)
            +:+ ":" +:+ padDigits 2 (SecFromTime t)
            +:+ "." +:+ padDigits 3 (msFromTime t) +:+ "Z")
  end.

Definition weekDayName (w : Z) : string :=
  nth (Z.to_nat w) ["Sun"; "Mon"; "Tue"; "Wed"; "Thu"; "Fri"; "Sat"] "".

Definition monthName (m : Z) : string :=
  nth (Z.to_nat m)
      ["Jan"; "Feb"; "Mar"; "Apr"; "May"; "Jun";
       "Jul"; "Aug"; "Sep"; "Oct"; "Nov"; "Dec"] "".

(** The date part of a Date's string form, of a local time value. *)
Definition DateString (tv : Z) : string :=
  let yv := YearFromTime tv in
  weekDayName (WeekDay tv) +:+ " " +:+ monthName (MonthFromTime tv) +:+ " "
  +:+ padDigits 2 (DateFromTime tv) +:+ " "
  +:+ (if yv <? 0 then "-" else "") +:+ padStart (String_of_Z (Z.abs yv)) 4 "0".

(** ** [parseInt(s)] with no radix argument

    The result is the integer read; the engine rounds it to a double,
    which changes nothing below 2^53 and leaves larger values outside the
    range of [TimeClip]. *)

Definition isWhiteSpace (c : ascii) : bool :=
  let n := nat_of_ascii c in
  ((9 <=? n) && (n <=? 13))%nat || (n =? 32)%nat.

Fixpoint trimStart (s : string) : string :=
  match s with
  | String c s' => if isWhiteSpace c then trimStart s' else s
  | EmptyString => s
  end.

Definition digitValue (c : ascii) : option Z :=
  let n := nat_of_ascii c in
  if ((48 <=? n) && (n <=? 57))%nat then Some (Z.of_nat n - 48)
  else if ((97 <=? n) && (n <=? 122))%nat then Some (Z.of_nat n - 87)
  else if ((65 <=? n) && (n <=? 90))%nat then Some (Z.of_nat n - 55)
  else None.

(** The value of the longest prefix of [s] made of digits of [radix],
    after the digits [acc] already read; [None] if there is no digit. *)
Fixpoint readDigits (radix : Z) (acc : option Z) (s : string) : option Z :=
  match s with
  | String c s' =>
      match digitValue c with
      | Some v =>
          if v <? radix
          then readDigits radix (Some (default 0 acc * radix + v)) s'
          else acc
      | None => acc
      end
  | EmptyString => acc
  end.

Definition parseInt (s : string) : Num :=
  let s1 := trimStart s in
  let '(neg, s2) :=
    match s1 with
    | String "-" r => (true, r)
    | String "+" r => (false, r)
    | _ => (false, s1)
    end in
  let '(radix, s3) :=
    match s2 with
    | String "0" (String "x" r) => (16, r)
    | String "0" (String "X" r) => (16, r)
    | _ => (10, s2)
    end in
  (λ v, if neg : bool then - v else v) <$> readDigits radix None s3.

(** ** What depends on the engine and on the host

    [Date_parse] is [Date.parse]: the time value of a date string, [NaN]
    when the engine does not recognise it. [LocalTZA] is the offset of
    local time from UTC, in milliseconds, at a UTC time value.
    [UTC] turns a local time value into a UTC one. [parseFloat] gives the
    class of the double that [parseFloat] returns; the double itself is
    never used by the scripts. *)

Inductive NumberClass := IsNaN | IsInfinite | IsFinite.

Definition isNaN (c : NumberClass) : bool :=
  match c with IsNaN => true | _ => false end.

Definition isFinite (c : NumberClass) : bool :=
  match c with IsFinite => true | _ => false end.

Class Runtime := {
  Date_parse : string → Date;
  LocalTZA : Z → Z;
  UTC : Z → Z;
  parseFloat : string → NumberClass
}.

Section WithRuntime.
Context {rt : Runtime}.

(** [new Date(s)] for a string [s]. *)
Definition Date_of_string (s : string) : Date := TimeClip (Date_parse s).

Definition LocalTime (t : Z) : Z := t + LocalTZA t.

(** [d.toDateString()]. *)
Definition toDateString (d : Date) : string :=
  match d with
  | None => "Invalid Date"
  | Some t => DateString (LocalTime t)
  end.

(** The local fields used by the backfill. *)
Definition getFullYear (d : Date) : Num := (λ t, YearFromTime (LocalTime t)) <$> d.
Definition getMonth (d : Date) : Num := (λ t, MonthFromTime (LocalTime t)) <$> d.
Definition getDate (d : Date) : Num := (λ t, DateFromTime (LocalTime t)) <$> d.

(** [d.setDate(dt)]: the day of the month of the local date is replaced,
    days outside the month carrying over. *)
Definition setDate (d : Date) (dt : Num) : Date :=
  match d, dt with
  | Some t, Some n =>
      let lt := LocalTime t in
      let day := days_from_civil (YearFromTime lt) (MonthFromTime lt + 1) 1 + n - 1 in
      TimeClip (Some (UTC (day * msPerDay + lt mod msPerDay)))
  | _, _ => None
  end.
End WithRuntime.

End JS.

(* ===================================================================== *)
(** * An engine for the examples *)
(* ===================================================================== *)

(** The runtime used in the concrete scenarios: [Date.parse] accepts the
    UTC date-time form [YYYY-MM-DDTHH:mm:ss[.sss]Z], which is what
    [toISOString] prints and what the stores hold; local time is UTC, as
    on the hosted runner that executes the scripts. *)
Module IsoRuntime.

Definition isDigit (c : ascii) : bool :=
  let n := nat_of_ascii c in ((48 <=? n) && (n <=? 57))%nat.

(** Exactly [n] decimal digits. *)
Fixpoint takeDigits (n : nat) (acc : Z) (s : string) : option (Z * string) :=
  match n with
  | O => Some (acc, s)
  | S n' =>
      match s with
      | String c s' =>
          if isDigit c
          then takeDigits n' (acc * 10 + (Z.of_nat (nat_of_ascii c) - 48)) s'
          else None
      | EmptyString => None
      end
  end.

Definition expect (c : ascii) (s : string) : option string :=
  match s with
  | String c' s' => if decide (c = c') then Some s' else None
  | EmptyString => None
  end.

Definition parseIso (s : string) : JS.Date :=
  '(y, s) ← takeDigits 4 0 s;
  s ← expect "-" s;
  '(m, s) ← takeDigits 2 0 s;
  s ← expect "-" s;
  '(d, s) ← takeDigits 2 0 s;
  s ← expect "T" s;
  '(hh, s) ← takeDigits 2 0 s;
  s ← expect ":" s;
  '(mm, s) ← takeDigits 2 0 s;
  s ← expect ":" s;
  '(ss, s) ← takeDigits 2 0 s;
  '(ms, s) ← match s with
             | String "." r => takeDigits 3 0 r
             | _ => Some (0, s)
             end;
  s ← expect "Z" s;
  let days := JS.days_from_civil y m d in
  if bool_decide (s = "" ∧ JS.civil_from_days days = (y, m, d)
                  ∧ hh < 24 ∧ mm < 60 ∧ ss < 60)
  then Some (days * JS.msPerDay + hh * JS.msPerHour + mm * JS.msPerMinute
             + ss * JS.msPerSecond + ms)
  else None.

(** The longest run of decimal digits at the head of [s]: how many, their
    value after [acc], and the rest. *)
Fixpoint spanDigits (acc : Z) (s : string) : nat * Z * string :=
  match s with
  | String c s' =>
      if isDigit c
      then let '(n, v, r) := spanDigits (acc * 10 + (Z.of_nat (nat_of_ascii c) - 48)) s' in
           (S n, v, r)
      else (O, acc, s)
  | EmptyString => (O, acc, s)
  end.

Definition stripSign (s : string) : string :=
  match s with
  | String "-" r => r
  | String "+" r => r
  | _ => s
  end.

(** The exponent part [e[+-]digits], when present and well formed. *)
Definition exponentPart (s : string) : Z :=
  let body r :=
    let neg := match r with String "-" _ => true | _ => false end in
    let '(n, v, _) := spanDigits 0 (stripSign r) in
    if (n =? 0)%nat then 0 else if neg then - v else v in
  match s with
  | String "e" r => body r
  | String "E" r => body r
  | _ => 0
  end.

(** Decimal values from this bound on round to an infinite double. *)
Definition overflowBound : Z := 2 ^ 1024 - 2 ^ 970.

Definition parseFloatClass (s : string) : JS.NumberClass :=
  let s := stripSign (JS.trimStart s) in
  if String.prefix "Infinity" s then JS.IsInfinite
  else
    let '(n1, v1, r1) := spanDigits 0 s in
    let '(n2, v2, r2) :=
      match r1 with
      | String "." r => spanDigits v1 r
      | _ => (O, v1, r1)
      end in
    if (n1 + n2 =? 0)%nat then JS.IsNaN
    else
      let e := exponentPart r2 - Z.of_nat n2 in
      if (if 0 <=? e then overflowBound <=? v2 * 10 ^ e
          else overflowBound * 10 ^ (- e) <=? v2)
      then JS.IsInfinite else JS.IsFinite.

#[export] Instance runtime : JS.Runtime := {|
  JS.Date_parse := parseIso;
  JS.LocalTZA := λ _, 0;
  JS.UTC := λ t, t;
  JS.parseFloat := parseFloatClass
|}.

End IsoRuntime.

(* ===================================================================== *)
(** * Stores and the file system *)
(* ===================================================================== *)

(** A row of a store: both fields are the strings of the CSV file. *)
Record RateRecord := { timestamp : string; preRate : string }.

#[export] Instance RateRecord_eq_dec : EqDecision RateRecord.
Proof. solve_decision. Defined.

(** A store file holds the header line [timestamp,preRate] and, below it,
    its rows; the file system maps a path to the rows of the file there.
    A file with the header alone has no rows; a path without a file is
    absent from the map. Directories are not modelled: the scripts create
    the one they need before they write. The fields of the rows are
    free of commas, quotes and line breaks (ISO timestamps and decimal
    rates are), so that a line of the file is a row. *)
Abbreviation Files := (gmap string (list RateRecord)).

Inductive IOOp :=
| OpRead (path : string)
| OpWriteFile (path : string) (rows : list RateRecord)
| OpAppendFile (path : string) (rows : list RateRecord).

(** The world of a run: the files, for each file operation still to come
    whether it fails ([true]; past the end of the list, none does), and
    the file operations attempted so far. *)
Record World := {
  files : Files;
  faults : list bool;
  trace : list IOOp
}.

Inductive Error :=
| IOError            (* a file operation failed *)
| NetworkError       (* fetch or response.json() threw *)
| HttpError          (* !response.ok *)
| InvalidResponse    (* the code or data of the payload *)
| InvalidRate        (* preRate is not a finite number *)
| RangeErrorDate.    (* toISOString of an Invalid Date *)

Inductive Result (A : Type) :=
| Ok (a : A)
| Err (e : Error).
Arguments Ok {A} a.
Arguments Err {A} e.

(** A computation reads and changes the world and returns or throws; what
    it changed before it threw stays changed. *)
Definition IO (A : Type) : Type := World → Result A * World.

Definition ret {A} (a : A) : IO A := λ w, (Ok a, w).

Definition bind {A B} (m : IO A) (f : A → IO B) : IO B := λ w,
  match m w with
  | (Ok a, w') => f a w'
  | (Err e, w') => (Err e, w')
  end.

Declare Scope io_scope.
Delimit Scope io_scope with io.
Bind Scope io_scope with IO.
Notation "x <- m ;; k" := (bind m (λ x, k))
  (at level 100, m at next level, right associativity) : io_scope.
Notation "m ;; k" := (bind m (λ _, k))
  (at level 100, right associativity) : io_scope.
Local Open Scope io_scope.

Definition throw {A} (e : Error) : IO A := λ w, (Err e, w).

(** Whether the next file operation fails. *)
Definition nextFails (w : World) : bool :=
  match faults w with
  | b :: _ => b
  | [] => false
  end.

(** The world after one file operation that leaves the files as [fs]. *)
Definition after (w : World) (op : IOOp) (fs : Files) : World :=
  {| files := fs; faults := tail (faults w); trace := trace w ++ [op] |}.

(** One file operation: it is logged, it takes the next fault, and it
    changes the files only if it does not fail. *)
Definition attempt (op : IOOp) (effect : Files → Files) : IO unit := λ w,
  if nextFails w then (Err IOError, after w op (files w))
  else (Ok tt, after w op (effect (files w))).

(** [fs.existsSync(path)]. *)
Definition existsSync (path : string) : IO bool := λ w,
  (Ok (bool_decide (is_Some (files w !! path))), w).

(** Reading the whole of an existing file. *)
Definition readRows (path : string) : IO (list RateRecord) := λ w,
  match attempt (OpRead path) id w with
  | (Ok _, w') => (Ok (default [] (files w !! path)), w')
  | (Err e, w') => (Err e, w')
  end.

(** [fs.writeFileSync(path, 'timestamp,preRate\n' + rows)], and
    [writeRecords] of a CSV writer opened without [append]: the file is
    replaced by the header and [rows]. *)
Definition writeFile (path : string) (rows : list RateRecord) : IO unit :=
  attempt (OpWriteFile path rows) (λ fs, <[path := rows]> fs).

(** [writeRecords] of a CSV writer opened with [append: true] on a file
    that exists: [rows] are added below the rows of the file. *)
Definition appendFile (path : string) (rows : list RateRecord) : IO unit :=
  attempt (OpAppendFile path rows)
          (λ fs, <[path := default [] (fs !! path) ++ rows]> fs).

(** A world with these files where no operation fails. *)
Definition quiet (fs : Files) : World :=
  {| files := fs; faults := []; trace := [] |}.

(* ===================================================================== *)
(** * Sorting a store by time *)
(* ===================================================================== *)

Section SortByTime.
Context {rt : JS.Runtime}.

(** The time value of a row: [new Date(r.timestamp).getTime()]. *)
Definition timeOf (r : RateRecord) : JS.Num :=
  JS.getTime (JS.Date_of_string (timestamp r)).

(** The comparator
    [(a, b) => new Date(a.timestamp).getTime() - new Date(b.timestamp).getTime()]
    as [sort] reads it: a [NaN] difference counts as [+0]. *)
Definition compareTime (a b : RateRecord) : Z :=
  match timeOf a, timeOf b with
  | Some x, Some y => x - y
  | _, _ => 0
  end.

Fixpoint insertByTime (x : RateRecord) (l : list RateRecord) : list RateRecord :=
  match l with
  | [] => [x]
  | y :: l' => if compareTime x y <=? 0 then x :: l else y :: insertByTime x l'
  end.

(** [rows.sort(comparator)]: the sort of an array is stable, so rows that
    compare equal keep their order. *)
Fixpoint sortByTime (l : list RateRecord) : list RateRecord :=
  match l with
  | [] => []
  | x :: l' => insertByTime x (sortByTime l')
  end.

(** The order of a store on disk: no row is later than the next one. *)
Definition notLater (a b : RateRecord) : Prop := compareTime a b <= 0.

Definition nonDecreasing (l : list RateRecord) : Prop := Sorted notLater l.
End SortByTime.

(* ===================================================================== *)
(** * The hourly fetch of [src/fetchRate.ts] *)
(* ===================================================================== *)

(** What the summary endpoint answered. *)
Record SummaryEntry := { entry_preRate : string }.

Record OKXResponse := {
  code : string;
  data : option (list SummaryEntry);   (* [None]: no [data] field *)
  msg : string
}.

(** The outcome of [fetch] and [response.json()]: a throw, or a response
    with its [ok] flag and body. *)
Inductive Fetched (Body : Type) :=
| FetchThrows
| Http (ok : bool) (body : Body).
Arguments FetchThrows {Body}.
Arguments Http {Body} ok body.

Inductive Outcome := Appended | SkippedDuplicate.

Definition CSV_PATH : string := "data/rates.csv".

Module Legacy.
Section WithRuntime.
Context {rt : JS.Runtime}.

(** The check on the last line of the store: the row there has the UTC
    hour of the new sample and the same local date string. *)
Definition sameHourAsLast (rows : list RateRecord) (timestampNow : string) : bool :=
  match last rows with
  | Some lastRow =>
      let lastDate := JS.Date_of_string (timestamp lastRow) in
      let currentDate := JS.Date_of_string timestampNow in
      JS.strictEq (JS.getUTCHours lastDate) (JS.getUTCHours currentDate)
      && String.eqb (JS.toDateString lastDate) (JS.toDateString currentDate)
  | None => false
  end.

(** [fetched] is what the endpoint answers, [timestampNow] is the reading
    [new Date().toISOString()] taken after the answer. Every throw ends
    the process with status 1. *)
Definition fetchLendingRate (fetched : Fetched OKXResponse) (timestampNow : string)
  : IO Outcome :=
  match fetched with
  | FetchThrows => throw NetworkError
  | Http ok body =>
      if negb ok then throw HttpError
      else if negb (String.eqb (code body) "0") then throw InvalidResponse
      else
        match data body with
        | Some (entry :: _) =>
            let preRate := entry_preRate entry in
            let preRateNum := JS.parseFloat preRate in
            if JS.isNaN preRateNum || negb (JS.isFinite preRateNum)
            then throw InvalidRate
            else
              csvExists <- existsSync CSV_PATH;;
              (if negb csvExists then writeFile CSV_PATH [] else ret tt);;
              rows <- readRows CSV_PATH;;
              if sameHourAsLast rows timestampNow then ret SkippedDuplicate
              else
                appendFile CSV_PATH [{| timestamp := timestampNow; preRate := preRate |}];;
                ret Appended
        | _ => throw InvalidResponse
        end
  end.
End WithRuntime.
End Legacy.

(* ===================================================================== *)
(** * The hourly fetch with monthly rollover *)
(* ===================================================================== *)

Module Rollover.

(** [path.join(DATA_DIR, `${monthKey}.csv`)], from the root of the
    repository. *)
Definition archiveFilePath (monthKey : string) : string :=
  "data/" +:+ monthKey +:+ ".csv".

Section WithRuntime.
Context {rt : JS.Runtime}.

(** A missing file is an empty store. *)
Definition readCsvData (filePath : string) : IO (list RateRecord) :=
  exists_ <- existsSync filePath;;
  if negb exists_ then ret [] else readRows filePath.

(** With [append = false] the header is written first and the CSV
    writer then writes header and rows again. *)
Definition writeCsvData (filePath : string) (data : list RateRecord) (append : bool)
  : IO unit :=
  match data with
  | [] => ret tt
  | _ =>
      if append then appendFile filePath data
      else writeFile filePath [];; writeFile filePath data
  end.

Definition getMonthKey (timestamp : string) : string :=
  let date := JS.Date_of_string timestamp in
  JS.String_of_Num (JS.getUTCFullYear date) +:+ "-"
  +:+ JS.padStart (JS.String_of_Num (JS.plus (JS.getUTCMonth date) 1)) 2 "0".

(** [dataByMonth]: a [Map] keeps its keys in the order of their first
    insertion, and each month's rows in the order of the store. *)
Fixpoint pushMonth (dataByMonth : list (string * list RateRecord))
         (monthKey : string) (record : RateRecord)
  : list (string * list RateRecord) :=
  match dataByMonth with
  | [] => [(monthKey, [record])]
  | (k, l) :: rest =>
      if decide (k = monthKey) then (k, l ++ [record]) :: rest
      else (k, l) :: pushMonth rest monthKey record
  end.

Definition groupByMonth (existingData : list RateRecord)
  : list (string * list RateRecord) :=
  fold_left (λ m record, pushMonth m (getMonthKey (timestamp record)) record)
            existingData [].

(** [dataByMonth.get(monthKey)]. *)
Fixpoint getMonth (dataByMonth : list (string * list RateRecord)) (monthKey : string)
  : option (list RateRecord) :=
  match dataByMonth with
  | [] => None
  | (k, l) :: rest => if decide (k = monthKey) then Some l else getMonth rest monthKey
  end.

(** The loop over the months: every month but the current one is sorted
    and written to its archive; the result is [hasRollover]. *)
Fixpoint archiveMonths (currentMonthKey : string)
         (dataByMonth : list (string * list RateRecord)) (hasRollover : bool)
  : IO bool :=
  match dataByMonth with
  | [] => ret hasRollover
  | (monthKey, monthData) :: rest =>
      if decide (monthKey ≠ currentMonthKey) then
        writeCsvData (archiveFilePath monthKey) (sortByTime monthData) false;;
        archiveMonths currentMonthKey rest true
      else archiveMonths currentMonthKey rest hasRollover
  end.

(** [now] is the reading [new Date().toISOString()] of the clock. *)
Definition performRollover (now : string) : IO unit :=
  csvExists <- existsSync CSV_PATH;;
  if negb csvExists then ret tt
  else
    existingData <- readCsvData CSV_PATH;;
    match existingData with
    | [] => ret tt
    | _ =>
        let currentMonthKey := getMonthKey now in
        let dataByMonth := groupByMonth existingData in
        hasRollover <- archiveMonths currentMonthKey dataByMonth false;;
        if hasRollover then
          let currentMonthData := default [] (getMonth dataByMonth currentMonthKey) in
          match currentMonthData with
          | [] => writeFile CSV_PATH []
          | _ => writeCsvData CSV_PATH (sortByTime currentMonthData) false
          end
        else ret tt
    end.

(** After the rollover the script is the one of [src/fetchRate.ts],
    statement for statement. *)
Definition fetchLendingRate (now : string) (fetched : Fetched OKXResponse)
           (timestampNow : string) : IO Outcome :=
  performRollover now;;
  Legacy.fetchLendingRate fetched timestampNow.
End WithRuntime.
End Rollover.

(* ===================================================================== *)
(** * The backfill of the current month *)
(* ===================================================================== *)

Module History.

(** What the history endpoint answered. *)
Record HistoryEntry := { ts : string; rate : string }.

Record OKXHistoryResponse := {
  code : string;
  data : option (list HistoryEntry);   (* [None]: no [data] field *)
  msg : string
}.

(** [s.replace(pattern, replacement)] for a string pattern: the first
    occurrence is replaced. *)
Fixpoint replace (pattern replacement s : string) : string :=
  if String.prefix pattern s
  then replacement +:+ String.substring (String.length pattern) (String.length s) s
  else match s with
       | String c s' => String c (replace pattern replacement s')
       | EmptyString => s
       end.

Section WithRuntime.
Context {rt : JS.Runtime}.

(** The loop that converts the entries of a response. *)
Fixpoint convertRecords (data : list HistoryEntry) : IO (list RateRecord) :=
  match data with
  | [] => ret []
  | record :: rest =>
      let recordTimestamp := JS.parseInt (ts record) in
      match JS.toISOString (JS.Date_of_Num recordTimestamp) with
      | None => throw RangeErrorDate
      | Some isoTimestamp =>
          records <- convertRecords rest;;
          ret ({| timestamp := isoTimestamp; preRate := rate record |} :: records)
      end
  end.

(** The filter: the rows of the UTC day of [endDate]. *)
Definition onTargetDay (endDate : string) (record : RateRecord) : bool :=
  let recordDate := JS.Date_of_string (timestamp record) in
  let targetDate := JS.Date_of_string endDate in
  JS.strictEq (JS.getUTCFullYear recordDate) (JS.getUTCFullYear targetDate)
  && JS.strictEq (JS.getUTCMonth recordDate) (JS.getUTCMonth targetDate)
  && JS.strictEq (JS.getUTCDate recordDate) (JS.getUTCDate targetDate).

(** [startDate] only shapes the request; [fetched] is the answer to it. *)
Definition fetchHistoricalRates (startDate endDate : string)
           (fetched : Fetched OKXHistoryResponse) : IO (list RateRecord) :=
  match fetched with
  | FetchThrows => throw NetworkError
  | Http ok body =>
      if negb ok then throw HttpError
      else if negb (String.eqb (code body) "0") then throw InvalidResponse
      else
        match data body with
        | None | Some [] => ret []
        | Some entries =>
            records <- convertRecords entries;;
            ret (sortByTime (List.filter (onTargetDay endDate) records))
        end
  end.

Definition pad2 (n : Z) : string := JS.padStart (JS.String_of_Z n) 2 "0".

(** The loop over the days [day], ..., [currentDay] of the month; [fetch]
    answers the request for a start and an end date. *)
Fixpoint fetchDays (fetch : string → string → Fetched OKXHistoryResponse)
         (currentYear currentMonth currentDay currentHour : Z)
         (days : list Z) (allHistoricalData : list RateRecord)
  : IO (list RateRecord) :=
  match days with
  | [] => ret allHistoricalData
  | day :: rest =>
      let dayStr := pad2 day in
      let monthStr := pad2 currentMonth in
      let endHour :=
        if day =? currentDay then pad2 currentHour +:+ ":59:59" else "23:59:59" in
      let date := JS.String_of_Z currentYear +:+ "-" +:+ monthStr +:+ "-" +:+ dayStr in
      let prevDay := JS.Date_of_string (date +:+ "T00:00:00Z") in
      let prevDay := JS.setDate prevDay (JS.plus (JS.getDate prevDay) (-1)) in
      match JS.toISOString prevDay with
      | None => throw RangeErrorDate
      | Some iso =>
          let startDate := replace "T00:00:00.000Z" "T23:59:59Z" iso in
          let endDate := date +:+ "T" +:+ endHour +:+ "Z" in
          dayData <- fetchHistoricalRates startDate endDate (fetch startDate endDate);;
          fetchDays fetch currentYear currentMonth currentDay currentHour rest
                    (allHistoricalData ++ dayData)
      end
  end.

(** The rows of the month so far: [now] is the time value of
    [new Date()]. *)
Definition fetchMonthSoFar (now : Z)
           (fetch : string → string → Fetched OKXHistoryResponse)
  : IO (list RateRecord) :=
  let currentYear := JS.YearFromTime (JS.LocalTime now) in
  let currentMonth := JS.MonthFromTime (JS.LocalTime now) + 1 in
  let currentDay := JS.DateFromTime (JS.LocalTime now) in
  let currentHour := JS.HourFromTime now in
  fetchDays fetch currentYear currentMonth currentDay currentHour
            (seqZ 1 currentDay) [].

(** The store is replaced by the rows fetched, sorted; nothing is
    written when there are none. *)
Definition fetchLendingRate (now : Z)
           (fetch : string → string → Fetched OKXHistoryResponse) : IO unit :=
  allHistoricalData <- fetchMonthSoFar now fetch;;
  match allHistoricalData with
  | [] => ret tt
  | _ => writeFile CSV_PATH (sortByTime allHistoricalData)
  end.
End WithRuntime.
End History.

(* ===================================================================== *)
(** * Facts about the built-ins and about paths *)
(* ===================================================================== *)

Lemma append_nil (t : string) : "" +:+ t = t.
Proof. reflexivity. Qed.

Lemma append_cons (c : ascii) (s t : string) : String c s +:+ t = String c (s +:+ t).
Proof. reflexivity. Qed.

Create Rewrite HintDb strings.
#[export] Hint Rewrite append_nil append_cons : strings.

Lemma append_length (s t : string) :
  String.length (s +:+ t) = (String.length s + String.length t)%nat.
Proof.
  induction s as [|c s IH]; autorewrite with strings; simpl; [done | by rewrite IH].
Qed.

(** A common suffix can be cancelled. *)
Lemma append_inj_r (t s1 s2 : string) : s1 +:+ t = s2 +:+ t → s1 = s2.
Proof.
  revert s2. induction s1 as [|c s1 IH]; intros [|c2 s2] H; try done;
    autorewrite with strings in H.
  - apply (f_equal String.length) in H. simpl in H. rewrite append_length in H. lia.
  - apply (f_equal String.length) in H. simpl in H. rewrite append_length in H. lia.
  - injection H as -> H. f_equal. by apply IH.
Qed.

Lemma archiveFilePath_inj (k1 k2 : string) :
  Rollover.archiveFilePath k1 = Rollover.archiveFilePath k2 → k1 = k2.
Proof.
  unfold Rollover.archiveFilePath. autorewrite with strings. intros H.
  injection H as H. by apply append_inj_r in H.
Qed.

(** [String(n)] starts with a digit or a minus sign. *)
Definition numberStart (c : ascii) : bool :=
  let n := nat_of_ascii c in
  ((48 <=? n) && (n <=? 57) || (n =? 45))%nat.

Lemma String_of_Z_start (z : Z) :
  ∃ c s, JS.String_of_Z z = String c s ∧ numberStart c = true.
Proof.
  unfold JS.String_of_Z.
  destruct (Z.to_int z) as [u|u]; simpl; [destruct u; simpl|]; by eexists _, _.
Qed.

Section PathFacts.
Context {rt : JS.Runtime}.

Lemma getMonthKey_start (timestamp : string) :
  ∃ c s, Rollover.getMonthKey timestamp = String c s ∧ c ≠ "r"%char.
Proof.
  unfold Rollover.getMonthKey.
  destruct (JS.Date_of_string timestamp) as [t|]; simpl.
  - destruct (String_of_Z_start (JS.YearFromTime t)) as (c & s & -> & Hc).
    autorewrite with strings. eexists _, _. split; [done|]. by intros ->.
  - by eexists _, _.
Qed.

(** No month key names the live store. *)
Lemma archive_of_month_not_live (timestamp : string) :
  Rollover.archiveFilePath (Rollover.getMonthKey timestamp) ≠ CSV_PATH.
Proof.
  destruct (getMonthKey_start timestamp) as (c & s & -> & Hc).
  unfold Rollover.archiveFilePath, CSV_PATH. autorewrite with strings. intros H.
  by injection H as -> _.
Qed.

(** The key of a row that parses is not the key of one that does not. *)
Lemma getMonthKey_valid_not_NaN (timestamp : string) :
  is_Some (JS.Date_of_string timestamp) →
  Rollover.getMonthKey timestamp ≠ "NaN-NaN".
Proof.
  intros [t Ht]. unfold Rollover.getMonthKey. rewrite Ht. simpl.
  destruct (String_of_Z_start (JS.YearFromTime t)) as (c & s & -> & Hc).
  autorewrite with strings. intros H. by injection H as -> _.
Qed.

Lemma getMonthKey_invalid (timestamp : string) :
  JS.Date_of_string timestamp = None →
  Rollover.getMonthKey timestamp = "NaN-NaN".
Proof. intros Ht. unfold Rollover.getMonthKey. by rewrite Ht. Qed.
End PathFacts.

(* ===================================================================== *)
(** * Facts about the sort *)
(* ===================================================================== *)

Section SortFacts.
Context {rt : JS.Runtime}.

Lemma compareTime_total (a b : RateRecord) : notLater a b ∨ notLater b a.
Proof.
  unfold notLater, compareTime.
  destruct (timeOf a), (timeOf b); lia.
Qed.

Lemma insertByTime_perm (x : RateRecord) (l : list RateRecord) :
  insertByTime x l ≡ₚ x :: l.
Proof.
  induction l as [|y l IH]; simpl; [done|].
  destruct (compareTime x y <=? 0); [done|].
  rewrite IH. apply Permutation_swap.
Qed.

Lemma sortByTime_perm (l : list RateRecord) : sortByTime l ≡ₚ l.
Proof.
  induction l as [|x l IH]; simpl; [done|].
  by rewrite insertByTime_perm, IH.
Qed.

Lemma elem_of_sortByTime (r : RateRecord) (l : list RateRecord) :
  r ∈ sortByTime l ↔ r ∈ l.
Proof. by rewrite sortByTime_perm. Qed.

Lemma sortByTime_nil (l : list RateRecord) : sortByTime l = [] → l = [].
Proof.
  intros H. apply Permutation_nil_r. rewrite <- H. symmetry. apply sortByTime_perm.
Qed.

Lemma insertByTime_hd (x y : RateRecord) (l : list RateRecord) :
  notLater y x → HdRel notLater y l → HdRel notLater y (insertByTime x l).
Proof.
  intros Hyx Hl. destruct l as [|z l]; simpl; [by constructor|].
  destruct (compareTime x z <=? 0); constructor; [done|].
  by inversion Hl.
Qed.

Lemma insertByTime_sorted (x : RateRecord) (l : list RateRecord) :
  nonDecreasing l → nonDecreasing (insertByTime x l).
Proof.
  unfold nonDecreasing. induction l as [|y l IH]; intros Hl; simpl.
  - repeat constructor.
  - destruct (Z.leb_spec (compareTime x y) 0) as [Hle|Hgt].
    + constructor; [done|]. by constructor.
    + inversion Hl as [|? ? Hs Hh]; subst. constructor; [by apply IH|].
      apply insertByTime_hd; [|done].
      destruct (compareTime_total y x) as [?|Hxy]; [done|].
      unfold notLater in Hxy. lia.
Qed.

Lemma sortByTime_sorted (l : list RateRecord) : nonDecreasing (sortByTime l).
Proof.
  induction l as [|x l IH]; simpl; [constructor|].
  by apply insertByTime_sorted.
Qed.

(** A store in order takes a row at its end when its last row is not
    later than the new one. *)
Lemma nonDecreasing_snoc (l : list RateRecord) (x : RateRecord) :
  nonDecreasing l →
  (∀ r, last l = Some r → notLater r x) →
  nonDecreasing (l ++ [x]).
Proof.
  unfold nonDecreasing. induction l as [|y l IH]; intros Hl Hlast; simpl.
  - repeat constructor.
  - inversion Hl as [|? ? Hs Hh]; subst. constructor.
    + apply IH; [done|]. intros r Hr. apply Hlast.
      destruct l; [done|]. by rewrite last_cons, Hr.
    + destruct l as [|z l]; simpl.
      * constructor. by apply Hlast.
      * constructor. by inversion Hh.
Qed.
End SortFacts.

(* ===================================================================== *)
(** * Facts about the file operations *)
(* ===================================================================== *)

(** The rows of the store at a path; a missing store has none. *)
Definition store (fs : Files) (path : string) : list RateRecord :=
  default [] (fs !! path).

Lemma writeFile_quiet (path : string) (rows : list RateRecord) (w : World) :
  faults w = [] →
  writeFile path rows w
  = (Ok tt, after w (OpWriteFile path rows) (<[path := rows]> (files w))).
Proof. intros Hq. unfold writeFile, attempt, nextFails. by rewrite Hq. Qed.

Lemma readRows_quiet (path : string) (w : World) :
  faults w = [] →
  readRows path w = (Ok (store (files w) path), after w (OpRead path) (files w)).
Proof. intros Hq. unfold readRows, attempt, nextFails. by rewrite Hq. Qed.

Lemma writeCsvData_quiet (path : string) (rows : list RateRecord) (w : World) :
  faults w = [] → rows ≠ [] →
  ∃ w', Rollover.writeCsvData path rows false w = (Ok tt, w')
        ∧ files w' = <[path := rows]> (files w) ∧ faults w' = [].
Proof.
  intros Hq Hne. destruct rows as [|r rows]; [done|].
  unfold Rollover.writeCsvData, bind.
  rewrite writeFile_quiet by done.
  rewrite writeFile_quiet by (simpl; by rewrite Hq).
  eexists. split; [done|]. simpl. split; [apply insert_insert_eq | by rewrite Hq].
Qed.

(** Whatever fails, writing a store changes no other path. *)
Lemma attempt_frame (op : IOOp) (effect : Files → Files) (w : World) (q : string) :
  effect (files w) !! q = files w !! q →
  files (attempt op effect w).2 !! q = files w !! q.
Proof. intros H. unfold attempt. by destruct (nextFails w). Qed.

Lemma writeFile_frame (path : string) (rows : list RateRecord) (w : World) (q : string) :
  q ≠ path → files (writeFile path rows w).2 !! q = files w !! q.
Proof. intros Hne. apply attempt_frame. by rewrite lookup_insert_ne. Qed.

Lemma writeCsvData_frame (path : string) (rows : list RateRecord) (w : World) (q : string) :
  q ≠ path → files (Rollover.writeCsvData path rows false w).2 !! q = files w !! q.
Proof.
  intros Hne. destruct rows as [|r rows]; [done|].
  unfold Rollover.writeCsvData, bind.
  pose proof (writeFile_frame path [] w q Hne) as H1.
  destruct (writeFile path [] w) as [[[]|e] w1]; simpl in *; [|done].
  by rewrite writeFile_frame.
Qed.

(* ===================================================================== *)
(** * Facts about the grouping by month *)
(* ===================================================================== *)

Section GroupFacts.
Context {rt : JS.Runtime}.
Import Rollover.

(** The month key of a row, from its own timestamp. *)
Definition monthKeyOf (r : RateRecord) : string := getMonthKey (timestamp r).

(** The rows of a month, in the order of the store. *)
Definition monthRows (k : string) (rows : list RateRecord) : list RateRecord :=
  filter (λ r, monthKeyOf r = k) rows.

Lemma getMonth_pushMonth m k r k' :
  getMonth (pushMonth m k r) k'
  = if decide (k = k') then Some (default [] (getMonth m k') ++ [r])
    else getMonth m k'.
Proof.
  induction m as [|[k0 l0] m IH]; simpl.
  - repeat case_decide; by simplify_eq.
  - destruct (decide (k0 = k)) as [->|Hne]; simpl.
    + repeat case_decide; by simplify_eq.
    + rewrite IH. repeat case_decide; by simplify_eq.
Qed.

Lemma getMonth_fold rows m k :
  getMonth (fold_left (λ m r, pushMonth m (monthKeyOf r) r) rows m) k
  = match monthRows k rows with
    | [] => getMonth m k
    | l => Some (default [] (getMonth m k) ++ l)
    end.
Proof.
  revert m. induction rows as [|r rows IH]; intros m; simpl; [done|].
  rewrite IH, getMonth_pushMonth. unfold monthRows. rewrite filter_cons.
  destruct (decide (monthKeyOf r = k)) as [Hk|Hk]; simpl.
  - destruct (filter _ rows); simpl; [done|]. by rewrite <- app_assoc.
  - done.
Qed.

Lemma getMonth_groupByMonth rows k :
  getMonth (groupByMonth rows) k
  = match monthRows k rows with [] => None | l => Some l end.
Proof. unfold groupByMonth. apply (getMonth_fold rows [] k). Qed.

Lemma pushMonth_keys m k r :
  (pushMonth m k r).*1 = if decide (k ∈ m.*1) then m.*1 else m.*1 ++ [k].
Proof.
  induction m as [|[k0 l0] m IH].
  - rewrite decide_False; [done|]. apply not_elem_of_nil.
  - cbn [pushMonth]. destruct (decide (k0 = k)) as [->|Hne].
    + rewrite decide_True; [done|]. rewrite fmap_cons. left.
    + rewrite !fmap_cons, IH. simpl.
      destruct (decide (k ∈ m.*1)) as [Hin|Hin].
      * rewrite decide_True; [done|]. by right.
      * rewrite decide_False; [done|].
        intros [?|?]%elem_of_cons; by simplify_eq.
Qed.

Lemma pushMonth_NoDup m k r : NoDup m.*1 → NoDup (pushMonth m k r).*1.
Proof.
  intros Hm. rewrite pushMonth_keys. case_decide as H; [done|].
  apply NoDup_app. split; [done|]. split; [|apply NoDup_singleton].
  intros x Hx Hx'. apply list_elem_of_singleton in Hx'. by subst.
Qed.

Lemma fold_pushMonth_NoDup rows m :
  NoDup m.*1 →
  NoDup (fold_left (λ m r, pushMonth m (monthKeyOf r) r) rows m).*1.
Proof.
  revert m. induction rows as [|r rows IH]; intros m Hm; simpl; [done|].
  apply IH. by apply pushMonth_NoDup.
Qed.

Lemma groupByMonth_NoDup rows : NoDup (groupByMonth rows).*1.
Proof. apply fold_pushMonth_NoDup. apply NoDup_nil_2. Qed.

Lemma getMonth_None m k : k ∉ m.*1 → getMonth m k = None.
Proof.
  induction m as [|[k0 l0] m IH]; [done|]. intros Hk.
  rewrite fmap_cons in Hk. apply not_elem_of_cons in Hk as [Hne Hk].
  cbn [getMonth]. rewrite decide_False by done. by apply IH.
Qed.

Lemma getMonth_elem m k l : NoDup m.*1 → (k, l) ∈ m → getMonth m k = Some l.
Proof.
  induction m as [|[k0 l0] m IH]; simpl; intros Hnd Hin.
  - by apply elem_of_nil in Hin.
  - apply NoDup_cons in Hnd as [Hk0 Hnd].
    apply elem_of_cons in Hin as [Heq|Hin].
    + simplify_eq. by case_decide.
    + case_decide as Hk; [|by apply IH]. subst k0.
      exfalso. apply Hk0. apply list_elem_of_fmap. by exists (k, l).
Qed.

(** Every group of the map is the rows of its month, and has a row. *)
Lemma groupByMonth_elem rows k l :
  (k, l) ∈ groupByMonth rows → l = monthRows k rows ∧ l ≠ [].
Proof.
  intros Hin. apply getMonth_elem in Hin; [|apply groupByMonth_NoDup].
  rewrite getMonth_groupByMonth in Hin.
  destruct (monthRows k rows) eqn:E; [done|]. by simplify_eq.
Qed.

Lemma groupByMonth_nonempty rows : Forall (λ g, g.2 ≠ []) (groupByMonth rows).
Proof.
  apply Forall_forall. intros [k l] Hin. simpl.
  by apply groupByMonth_elem in Hin as [_ ?].
Qed.

Lemma elem_of_monthRows r k rows : r ∈ monthRows k rows ↔ monthKeyOf r = k ∧ r ∈ rows.
Proof. unfold monthRows. by rewrite list_elem_of_filter. Qed.

(** The rows of a month parse alike: all of them have a time value or
    none has, so the comparator of the sort orders them consistently. *)
Lemma monthRows_parse_alike k rows r1 r2 :
  r1 ∈ monthRows k rows → r2 ∈ monthRows k rows →
  (is_Some (timeOf r1) ↔ is_Some (timeOf r2)).
Proof.
  assert (∀ a b, a ∈ monthRows k rows → b ∈ monthRows k rows →
                 is_Some (timeOf a) → is_Some (timeOf b)) as H.
  { intros a b [Ha _]%elem_of_monthRows [Hb _]%elem_of_monthRows Hsome.
    destruct (timeOf b) eqn:E; [done|]. exfalso.
    apply (getMonthKey_valid_not_NaN (timestamp a)); [exact Hsome|].
    unfold monthKeyOf in *. rewrite Ha, <- Hb. by apply getMonthKey_invalid. }
  intros H1 H2. split; by apply H.
Qed.
End GroupFacts.

(* ===================================================================== *)
(** * Facts about the rollover *)
(* ===================================================================== *)

Section RolloverFacts.
Context {rt : JS.Runtime}.
Import Rollover.

(** A group of a month other than the current one. *)
Definition isOld (cur : string) (g : string * list RateRecord) : bool :=
  bool_decide (g.1 ≠ cur).

Definition hasOldMonth (cur : string) (groups : list (string * list RateRecord)) : bool :=
  existsb (isOld cur) groups.

(** The files after the archive loop when no operation fails. *)
Fixpoint archivedFiles (cur : string) (groups : list (string * list RateRecord))
         (fs : Files) : Files :=
  match groups with
  | [] => fs
  | (k, l) :: rest =>
      archivedFiles cur rest
        (if decide (k ≠ cur) then <[archiveFilePath k := sortByTime l]> fs else fs)
  end.

(** The files after a rollover when no operation fails. *)
Definition rolledFiles (now : string) (fs : Files) : Files :=
  match fs !! CSV_PATH with
  | None | Some [] => fs
  | Some rows =>
      let cur := getMonthKey now in
      let groups := groupByMonth rows in
      if hasOldMonth cur groups
      then <[CSV_PATH := sortByTime (default [] (getMonth groups cur))]>
             (archivedFiles cur groups fs)
      else fs
  end.

Lemma sortByTime_nonempty (l : list RateRecord) : l ≠ [] → sortByTime l ≠ [].
Proof. intros Hl Hs. by apply sortByTime_nil in Hs. Qed.

Lemma archiveMonths_quiet cur groups h w :
  faults w = [] → Forall (λ g, g.2 ≠ []) groups →
  ∃ w', archiveMonths cur groups h w = (Ok (h || hasOldMonth cur groups), w')
        ∧ files w' = archivedFiles cur groups (files w) ∧ faults w' = [].
Proof.
  revert h w. induction groups as [|[k l] rest IH]; intros h w Hq Hne.
  - exists w. by rewrite orb_false_r.
  - apply Forall_cons in Hne as [Hl Hne]. cbn [archiveMonths archivedFiles].
    unfold hasOldMonth. cbn [existsb]. unfold isOld at 1. cbn [fst].
    destruct (decide (k ≠ cur)) as [Hk|Hk].
    + rewrite bool_decide_true by done.
      destruct (writeCsvData_quiet (archiveFilePath k) (sortByTime l) w Hq)
        as (w1 & Hw & Hf1 & Hq1); [by apply sortByTime_nonempty|].
      unfold bind. rewrite Hw.
      destruct (IH true w1 Hq1 Hne) as (w' & Hr & Hf & Hq').
      exists w'. rewrite Hr, <- Hf1. by rewrite orb_true_r.
    + rewrite bool_decide_false by done. by apply IH.
Qed.

Lemma archivedFiles_frame cur groups fs q :
  (∀ g, g ∈ groups → isOld cur g = true → archiveFilePath g.1 ≠ q) →
  archivedFiles cur groups fs !! q = fs !! q.
Proof.
  revert fs. induction groups as [|[k l] rest IH]; intros fs Hq; [done|].
  cbn [archivedFiles]. rewrite IH by (intros g Hg; apply Hq; by right).
  case_decide as Hk; [|done]. apply lookup_insert_ne.
  apply (Hq (k, l)); [left|]. unfold isOld. by rewrite bool_decide_true.
Qed.

Lemma archivedFiles_lookup cur groups fs k l :
  NoDup groups.*1 → getMonth groups k = Some l → k ≠ cur →
  archivedFiles cur groups fs !! archiveFilePath k = Some (sortByTime l).
Proof.
  revert fs. induction groups as [|[k0 l0] rest IH]; intros fs Hnd Hget Hk; [done|].
  rewrite fmap_cons in Hnd. apply NoDup_cons in Hnd as [Hk0 Hnd].
  cbn [archivedFiles getMonth] in *. case_decide as Heq.
  - simplify_eq. rewrite decide_True by done.
    rewrite archivedFiles_frame; [apply lookup_insert_eq|].
    intros [k' l'] Hg _ Heq%archiveFilePath_inj. simpl in Heq. subst k'.
    apply Hk0. apply list_elem_of_fmap. by exists (k, l').
  - by apply IH.
Qed.

Lemma archivedFiles_no_old cur groups fs :
  hasOldMonth cur groups = false → archivedFiles cur groups fs = fs.
Proof.
  revert fs. induction groups as [|[k l] rest IH]; intros fs Hold; [done|].
  unfold hasOldMonth in Hold. cbn [existsb] in Hold.
  apply orb_false_iff in Hold as [Hk Hold]. unfold isOld in Hk. cbn [fst] in Hk.
  apply bool_decide_eq_false in Hk. cbn [archivedFiles].
  rewrite decide_False by done. by apply IH.
Qed.

(** The keys of the map are keys of rows of the store. *)
Lemma groupByMonth_key rows g :
  g ∈ groupByMonth rows → ∃ r, r ∈ rows ∧ g.1 = monthKeyOf r.
Proof.
  destruct g as [k l]. intros [Hl Hne]%groupByMonth_elem.
  destruct l as [|r l]; [done|]. exists r.
  assert (r ∈ monthRows k rows) as Hr by (rewrite <- Hl; left).
  apply elem_of_monthRows in Hr as [Hk Hr]. by split.
Qed.

Lemma hasOldMonth_true cur rows :
  hasOldMonth cur (groupByMonth rows) = true ↔ ∃ r, r ∈ rows ∧ monthKeyOf r ≠ cur.
Proof.
  unfold hasOldMonth. rewrite existsb_exists. split.
  - intros (g & Hg%list_elem_of_In & Hold). unfold isOld in Hold.
    apply bool_decide_eq_true in Hold.
    apply groupByMonth_key in Hg as (r & Hr & Hk). exists r. by rewrite <- Hk.
  - intros (r & Hr & Hk).
    assert (monthRows (monthKeyOf r) rows ≠ []) as Hne.
    { intros E. assert (r ∈ monthRows (monthKeyOf r) rows) as Hin
        by by apply elem_of_monthRows.
      rewrite E in Hin. by apply elem_of_nil in Hin. }
    pose proof (getMonth_groupByMonth rows (monthKeyOf r)) as Hget.
    destruct (monthRows (monthKeyOf r) rows) as [|r' l] eqn:E; [done|].
    exists (monthKeyOf r, r' :: l). split.
    + apply list_elem_of_In. clear -Hget.
      induction (groupByMonth rows) as [|[k0 l0] m IH]; [done|].
      cbn [getMonth] in Hget. case_decide; simplify_eq; [left | right; by apply IH].
    + unfold isOld. by apply bool_decide_eq_true.
Qed.
End RolloverFacts.

Section RolloverRuns.
Context {rt : JS.Runtime}.
Import Rollover.

Lemma existsSync_eq path w :
  existsSync path w = (Ok (bool_decide (is_Some (files w !! path))), w).
Proof. reflexivity. Qed.

(** The run of a rollover when no operation fails. *)
Lemma performRollover_quiet now w :
  faults w = [] →
  ∃ w', performRollover now w = (Ok tt, w')
        ∧ files w' = rolledFiles now (files w) ∧ faults w' = [].
Proof.
  intros Hq. unfold performRollover, rolledFiles, bind at 1. rewrite existsSync_eq.
  destruct (files w !! CSV_PATH) as [rows|] eqn:Hlive.
  2:{ rewrite bool_decide_false by (by intros [? ?]). by exists w. }
  rewrite bool_decide_true by done. cbn [negb].
  unfold bind at 1, readCsvData, bind at 1. rewrite existsSync_eq, Hlive.
  rewrite bool_decide_true by done. cbn [negb].
  rewrite readRows_quiet by done. unfold store. rewrite Hlive.
  cbn [default from_option id].
  destruct rows as [|r rows].
  { eexists. split; [done|]. split; [done|]. simpl. by rewrite Hq. }
  set (w1 := after w (OpRead CSV_PATH) (files w)).
  assert (faults w1 = []) as Hq1 by (subst w1; simpl; by rewrite Hq).
  destruct (archiveMonths_quiet (getMonthKey now) (groupByMonth (r :: rows)) false w1 Hq1)
    as (w2 & Hrun & Hf2 & Hq2); [apply groupByMonth_nonempty|].
  unfold bind at 1. rewrite Hrun. cbn [orb].
  destruct (hasOldMonth _ _) eqn:Hold.
  2:{ exists w2. rewrite Hf2, archivedFiles_no_old by done. by subst w1. }
  destruct (default [] (getMonth _ _)) as [|c cs] eqn:Hcur.
  - rewrite writeFile_quiet by done. eexists. split; [done|]. simpl.
    rewrite Hf2, Hq2. done.
  - destruct (writeCsvData_quiet CSV_PATH (sortByTime (c :: cs)) w2 Hq2)
      as (w3 & Hw & Hf3 & Hq3); [by apply sortByTime_nonempty|].
    exists w3. rewrite Hf3, Hf2. split; [|done].
    rewrite <- Hw. unfold writeCsvData.
    by destruct (sortByTime (c :: cs)) eqn:Hs.
Qed.

(** What the rolled files hold when a month was archived. *)
Lemma rolledFiles_live now fs rows :
  fs !! CSV_PATH = Some rows →
  hasOldMonth (getMonthKey now) (groupByMonth rows) = true →
  rolledFiles now fs !! CSV_PATH
  = Some (sortByTime (monthRows (getMonthKey now) rows)).
Proof.
  intros Hlive Hold. unfold rolledFiles. rewrite Hlive.
  destruct rows as [|r rows]; [done|]. rewrite Hold, lookup_insert_eq.
  rewrite getMonth_groupByMonth. by destruct (monthRows _ _).
Qed.

Lemma rolledFiles_archive now fs rows k :
  fs !! CSV_PATH = Some rows →
  k ≠ getMonthKey now → monthRows k rows ≠ [] →
  rolledFiles now fs !! archiveFilePath k = Some (sortByTime (monthRows k rows)).
Proof.
  intros Hlive Hk Hne. unfold rolledFiles. rewrite Hlive.
  assert (∃ r, r ∈ rows ∧ monthKeyOf r = k) as (r & Hr & Hkr).
  { destruct (monthRows k rows) as [|r l] eqn:E; [done|]. exists r.
    assert (r ∈ monthRows k rows) as Hin by (rewrite E; left).
    apply elem_of_monthRows in Hin as [? ?]. by split. }
  assert (hasOldMonth (getMonthKey now) (groupByMonth rows) = true) as Hold.
  { apply hasOldMonth_true. exists r. split; [done|]. by rewrite Hkr. }
  destruct rows as [|r0 rows]; [by apply elem_of_nil in Hr|]. rewrite Hold.
  rewrite lookup_insert_ne.
  2:{ rewrite <- Hkr. intros E. symmetry in E. by apply archive_of_month_not_live in E. }
  apply archivedFiles_lookup; [apply groupByMonth_NoDup| |done].
  rewrite getMonth_groupByMonth. by destruct (monthRows k (r0 :: rows)).
Qed.

(** A path that is neither the live store nor the archive of an old
    month of a row keeps its file. *)
Lemma rolledFiles_other now fs q :
  q ≠ CSV_PATH →
  (∀ r, r ∈ store fs CSV_PATH → monthKeyOf r ≠ getMonthKey now →
        archiveFilePath (monthKeyOf r) ≠ q) →
  rolledFiles now fs !! q = fs !! q.
Proof.
  intros Hq Hrows. unfold rolledFiles, store in *.
  destruct (fs !! CSV_PATH) as [[|r0 rows]|] eqn:Hlive; try done.
  destruct (hasOldMonth _ _); [|done].
  rewrite lookup_insert_ne by done. apply archivedFiles_frame.
  intros [k l] Hg Hold. apply groupByMonth_key in Hg as (r & Hr & Hk).
  cbn [fst] in *. subst k. apply Hrows; [done|].
  unfold isOld in Hold. by apply bool_decide_eq_true in Hold.
Qed.

End RolloverRuns.

Section RolloverFaults.
Context {rt : JS.Runtime}.
Import Rollover.

(** Writing a store with rows takes two file operations: it throws if
    one of them fails, and returns having used both otherwise. *)
Lemma writeCsvData_faults path rows w :
  rows ≠ [] →
  (∃ w', writeCsvData path rows false w = (Err IOError, w'))
  ∨ (∃ w', writeCsvData path rows false w = (Ok tt, w')
           ∧ faults w' = drop 2 (faults w)
           ∧ faults w !! 0%nat ≠ Some true ∧ faults w !! 1%nat ≠ Some true).
Proof.
  intros Hne. destruct rows as [|r rows]; [done|].
  destruct w as [fs fl tr].
  unfold writeCsvData, bind, writeFile, attempt, nextFails, after.
  destruct fl as [|[] [|[] fl]]; simpl; eauto 10.
Qed.

(** The months of the map that the loop archives. *)
Definition oldMonths (cur : string) (groups : list (string * list RateRecord)) : nat :=
  length (filter (λ g, g.1 ≠ cur) groups).

Lemma archiveMonths_fault cur groups h w (i : nat) :
  Forall (λ g, g.2 ≠ []) groups →
  (i < 2 * oldMonths cur groups)%nat →
  faults w !! i = Some true →
  ∃ w', archiveMonths cur groups h w = (Err IOError, w').
Proof.
  revert h w i. induction groups as [|[k l] rest IH]; intros h w i Hne Hi Hf.
  - unfold oldMonths in Hi. simpl in Hi. lia.
  - apply Forall_cons in Hne as [Hl Hne]. cbn [archiveMonths].
    unfold oldMonths in Hi. rewrite filter_cons in Hi. cbn [fst] in Hi.
    destruct (decide (k ≠ cur)) as [Hk|Hk].
    + unfold bind.
      destruct (writeCsvData_faults (archiveFilePath k) (sortByTime l) w)
        as [(w1 & ->)|(w1 & -> & Hfl & H0 & H1)];
        [by apply sortByTime_nonempty | by eexists |].
      destruct i as [|[|i]]; [done | done |].
      apply (IH true w1 i Hne).
      * unfold oldMonths. simpl in Hi. lia.
      * rewrite Hfl, lookup_drop. exact Hf.
    + by apply (IH h w i).
Qed.

(** The loop writes nothing outside the archives of its months. *)
Lemma archiveMonths_frame cur groups h w q :
  (∀ g, g ∈ groups → archiveFilePath g.1 ≠ q) →
  files (archiveMonths cur groups h w).2 !! q = files w !! q.
Proof.
  revert h w. induction groups as [|[k l] rest IH]; intros h w Hq; [done|].
  cbn [archiveMonths].
  assert (∀ g, g ∈ rest → archiveFilePath g.1 ≠ q) as Hrest
    by (intros g Hg; apply Hq; by right).
  case_decide as Hk; [|by apply IH].
  unfold bind.
  pose proof (writeCsvData_frame (archiveFilePath k) (sortByTime l) w q) as Hw.
  destruct (writeCsvData _ _ _ w) as [[[]|e] w1]; cbn [snd] in *.
  - rewrite IH by done. apply Hw. intros ->. by apply (Hq (k, l)); [left|].
  - apply Hw. intros ->. by apply (Hq (k, l)); [left|].
Qed.

(** With every month current, the loop does nothing. *)
Lemma archiveMonths_current cur groups h w :
  (∀ g, g ∈ groups → g.1 = cur) →
  archiveMonths cur groups h w = (Ok h, w).
Proof.
  revert h. induction groups as [|[k l] rest IH]; intros h Hcur; [done|].
  cbn [archiveMonths]. rewrite decide_False.
  - apply IH. intros g Hg. apply Hcur. by right.
  - intros Hk. apply Hk. by apply (Hcur (k, l)); left.
Qed.

(** The file operations of the archive loop of a rollover. *)
Definition archiveWrites (now : string) (rows : list RateRecord) : nat :=
  2 * oldMonths (getMonthKey now) (groupByMonth rows).

(** The start of a rollover on a live store that exists. *)
Lemma performRollover_live now w rows :
  files w !! CSV_PATH = Some rows →
  performRollover now w
  = if nextFails w then (Err IOError, after w (OpRead CSV_PATH) (files w))
    else match rows with
         | [] => (Ok tt, after w (OpRead CSV_PATH) (files w))
         | _ =>
             (hasRollover <-
                archiveMonths (getMonthKey now) (groupByMonth rows) false;;
              if hasRollover then
                match default [] (getMonth (groupByMonth rows) (getMonthKey now)) with
                | [] => writeFile CSV_PATH []
                | _ => writeCsvData CSV_PATH
                         (sortByTime (default [] (getMonth (groupByMonth rows)
                                                           (getMonthKey now)))) false
                end
              else ret tt) (after w (OpRead CSV_PATH) (files w))
         end.
Proof.
  intros Hlive. unfold performRollover, bind at 1. rewrite existsSync_eq, Hlive.
  rewrite bool_decide_true by done. cbn [negb].
  unfold bind at 1, readCsvData, bind at 1. rewrite existsSync_eq, Hlive.
  rewrite bool_decide_true by done. cbn [negb].
  unfold readRows, attempt. destruct (nextFails w); [done|].
  rewrite Hlive. cbn [default from_option id]. by destruct rows.
Qed.

(** If the read or a write of the archive loop fails, the rollover
    throws and the live store is as it was. *)
Lemma performRollover_fault now w rows (i : nat) :
  files w !! CSV_PATH = Some rows →
  (i < 1 + archiveWrites now rows)%nat →
  faults w !! i = Some true →
  ∃ w', performRollover now w = (Err IOError, w')
        ∧ files w' !! CSV_PATH = Some rows.
Proof.
  intros Hlive Hi Hf. rewrite (performRollover_live now w rows Hlive).
  unfold nextFails. destruct (faults w) as [|b fl] eqn:Hfl; [done|].
  destruct b; [by eexists|].
  destruct i as [|i]; [done|]. cbn [lookup list_lookup] in Hf.
  set (w1 := after w (OpRead CSV_PATH) (files w)).
  assert (faults w1 = fl) as Hfl1 by (subst w1; simpl; by rewrite Hfl).
  destruct rows as [|r rows].
  { unfold archiveWrites, oldMonths in Hi. simpl in Hi. lia. }
  destruct (archiveMonths_fault (getMonthKey now) (groupByMonth (r :: rows)) false w1 i)
    as (w2 & Hrun); [apply groupByMonth_nonempty | unfold archiveWrites in Hi; lia
                    | by rewrite Hfl1 |].
  unfold bind. rewrite Hrun. exists w2. split; [done|].
  replace w2 with (archiveMonths (getMonthKey now) (groupByMonth (r :: rows)) false w1).2
    by by rewrite Hrun.
  rewrite archiveMonths_frame; [done|].
  intros g (r' & _ & ->)%groupByMonth_key. apply archive_of_month_not_live.
Qed.

(** A live store with rows, all of the current month: the rollover reads
    it and does nothing else. *)
Lemma performRollover_all_current now w rows :
  files w !! CSV_PATH = Some rows →
  (∀ r, r ∈ rows → monthKeyOf r = getMonthKey now) →
  performRollover now w
  = (if nextFails w then Err IOError else Ok tt,
     after w (OpRead CSV_PATH) (files w)).
Proof.
  intros Hlive Hcur. rewrite (performRollover_live now w rows Hlive).
  destruct (nextFails w); [done|]. destruct rows as [|r rows]; [done|].
  unfold bind. rewrite archiveMonths_current; [done|].
  intros g (r' & Hr' & ->)%groupByMonth_key. by apply Hcur.
Qed.
End RolloverFaults.

(* ===================================================================== *)
(** * Facts about dates *)
(* ===================================================================== *)

(** The day number of the civil date of a day number is that day number. *)
Lemma days_from_civil_from_days (z : Z) :
  let '(y, m, d) := JS.civil_from_days z in JS.days_from_civil y m d = z.
Proof.
  unfold JS.civil_from_days, JS.days_from_civil.
  set (era := (z + 719468) / 146097).
  set (doe := z + 719468 - era * 146097).
  assert (0 <= doe < 146097) as Hdoe by (subst doe era; Z.div_mod_to_equations; lia).
  set (yoe := (doe - doe / 1460 + doe / 36524 - doe / 146096) / 365).
  assert (0 <= yoe < 400) as Hyoe by (subst yoe; Z.div_mod_to_equations; lia).
  set (doy := doe - (365 * yoe + yoe / 4 - yoe / 100)).
  assert (0 <= doy < 366) as Hdoy by (subst doy yoe; Z.div_mod_to_equations; lia).
  set (mp := (5 * doy + 2) / 153).
  assert (0 <= mp < 12) as Hmp by (subst mp; Z.div_mod_to_equations; lia).
  set (m := if mp <? 10 then mp + 3 else mp - 9).
  assert ((if 2 <? m then m - 3 else m + 9) = mp) as ->.
  { subst m. destruct (Z.ltb_spec mp 10); destruct (Z.ltb_spec 2 (mp + 3));
      destruct (Z.ltb_spec 2 (mp - 9)); lia. }
  replace (yoe + era * 400 + (if m <=? 2 then 1 else 0) - (if m <=? 2 then 1 else 0))
    with (yoe + era * 400) by lia.
  assert ((yoe + era * 400) / 400 = era) as -> by (Z.div_mod_to_equations; lia).
  replace (yoe + era * 400 - era * 400) with yoe by lia.
  subst doy doe. lia.
Qed.

(** Two days with the same civil date are the same day. *)
Lemma civil_from_days_inj (z1 z2 : Z) :
  JS.civil_from_days z1 = JS.civil_from_days z2 → z1 = z2.
Proof.
  intros H. pose proof (days_from_civil_from_days z1) as H1.
  pose proof (days_from_civil_from_days z2) as H2.
  rewrite H in H1. destruct (JS.civil_from_days z2) as [[y m] d]. congruence.
Qed.

(** The date string of a time value depends on its day alone. *)
Lemma DateString_same_date (t1 t2 : Z) :
  JS.YearFromTime t1 = JS.YearFromTime t2 →
  JS.MonthFromTime t1 = JS.MonthFromTime t2 →
  JS.DateFromTime t1 = JS.DateFromTime t2 →
  JS.DateString t1 = JS.DateString t2.
Proof.
  unfold JS.YearFromTime, JS.MonthFromTime, JS.DateFromTime. intros Hy Hm Hd.
  assert (JS.Day t1 = JS.Day t2) as HD.
  { apply civil_from_days_inj.
    destruct (JS.civil_from_days (JS.Day t1)) as [[y1 m1] d1].
    destruct (JS.civil_from_days (JS.Day t2)) as [[y2 m2] d2].
    simpl in *. f_equal; [f_equal|]; lia. }
  unfold JS.DateString, JS.WeekDay, JS.YearFromTime, JS.MonthFromTime, JS.DateFromTime.
  by rewrite HD.
Qed.

(* ===================================================================== *)
(** * Facts about the insertion of a sample *)
(* ===================================================================== *)

Section IngestFacts.
Context {rt : JS.Runtime}.

(** The (UTC year, month, day, hour) bucket of a timestamp that parses. *)
Definition bucketOf (timestamp : string) : option (Z * Z * Z * Z) :=
  (λ t, (JS.YearFromTime t, JS.MonthFromTime t, JS.DateFromTime t, JS.HourFromTime t))
    <$> JS.Date_of_string timestamp.

(** The endpoint answered with a sample whose rate is a finite number. *)
Definition accepted (fetched : Fetched OKXResponse) (preRate : string) : Prop :=
  ∃ body rest,
    fetched = Http true body ∧ code body = "0"
    ∧ data body = Some ({| entry_preRate := preRate |} :: rest)
    ∧ JS.parseFloat preRate = JS.IsFinite.

(** The insertion of an accepted sample into a live store that exists. *)
Lemma fetchLendingRate_accepted fetched preRate timestampNow w rows :
  accepted fetched preRate →
  files w !! CSV_PATH = Some rows →
  Legacy.fetchLendingRate fetched timestampNow w
  = if nextFails w then (Err IOError, after w (OpRead CSV_PATH) (files w))
    else if Legacy.sameHourAsLast rows timestampNow
         then (Ok SkippedDuplicate, after w (OpRead CSV_PATH) (files w))
         else (appendFile CSV_PATH [{| timestamp := timestampNow; preRate := preRate |}];;
               ret Appended) (after w (OpRead CSV_PATH) (files w)).
Proof.
  intros (body & rest & -> & Hcode & Hdata & Hfin) Hlive.
  unfold Legacy.fetchLendingRate. cbn [negb]. rewrite Hcode, Hdata.
  cbn [String.eqb Ascii.eqb Bool.eqb negb entry_preRate]. rewrite Hfin.
  cbn [JS.isNaN JS.isFinite negb orb].
  unfold bind at 1. rewrite existsSync_eq, Hlive.
  rewrite bool_decide_true by done. cbn [negb].
  unfold bind at 1, bind at 1, ret at 1.
  unfold bind at 1, readRows, attempt.
  destruct (nextFails w); [done|]. rewrite Hlive. cbn [default from_option id].
  by destruct (Legacy.sameHourAsLast rows timestampNow).
Qed.

Lemma same_bucket_same_hour ts1 ts2 b :
  bucketOf ts1 = Some b → bucketOf ts2 = Some b →
  JS.strictEq (JS.getUTCHours (JS.Date_of_string ts1))
              (JS.getUTCHours (JS.Date_of_string ts2)) = true.
Proof.
  unfold bucketOf. intros H1 H2.
  destruct (JS.Date_of_string ts1) as [t1|], (JS.Date_of_string ts2) as [t2|];
    simplify_eq/=. apply Z.eqb_eq. congruence.
Qed.

(** In a process whose local time is UTC, a bucket lies within one local
    date. *)
Lemma utc_same_bucket_same_date ts1 ts2 b :
  (∀ t, JS.LocalTZA t = 0) →
  bucketOf ts1 = Some b → bucketOf ts2 = Some b →
  JS.toDateString (JS.Date_of_string ts1) = JS.toDateString (JS.Date_of_string ts2).
Proof.
  unfold bucketOf. intros Hutc H1 H2.
  destruct (JS.Date_of_string ts1) as [t1|], (JS.Date_of_string ts2) as [t2|];
    simplify_eq/=. unfold JS.LocalTime. rewrite !Hutc, !Z.add_0_r.
  apply DateString_same_date; congruence.
Qed.
End IngestFacts.

(* ===================================================================== *)
(** * Facts about the backfill *)
(* ===================================================================== *)

(** A computation that leaves the world alone and does not look at it. *)
Definition pureIO {A} (m : IO A) : Prop := ∀ w w', m w = ((m w').1, w).

Lemma pureIO_ret {A} (a : A) : pureIO (ret a).
Proof. by intros w w'. Qed.

Lemma pureIO_throw {A} (e : Error) : pureIO (throw (A:=A) e).
Proof. by intros w w'. Qed.

Lemma pureIO_bind {A B} (m : IO A) (f : A → IO B) :
  pureIO m → (∀ a, pureIO (f a)) → pureIO (bind m f).
Proof.
  intros Hm Hf w w'. unfold bind. rewrite (Hm w w'), (Hm w' w').
  destruct (m w').1 as [a|e]; [apply Hf | done].
Qed.

Section BackfillFacts.
Context {rt : JS.Runtime}.
Import History.

Lemma convertRecords_pure entries : pureIO (convertRecords entries).
Proof.
  induction entries as [|record rest IH]; cbn [convertRecords]; [apply pureIO_ret|].
  destruct (JS.toISOString _); [|apply pureIO_throw].
  apply pureIO_bind; [done|]. intros a. apply pureIO_ret.
Qed.

Lemma fetchHistoricalRates_pure startDate endDate fetched :
  pureIO (fetchHistoricalRates startDate endDate fetched).
Proof.
  unfold fetchHistoricalRates. destruct fetched as [|ok body]; [apply pureIO_throw|].
  destruct (negb ok); [apply pureIO_throw|].
  destruct (negb _); [apply pureIO_throw|].
  destruct (data body) as [[|e es]|]; try apply pureIO_ret.
  apply pureIO_bind; [apply convertRecords_pure|]. intros a. apply pureIO_ret.
Qed.

Lemma fetchDays_pure fetch y m d h days acc : pureIO (fetchDays fetch y m d h days acc).
Proof.
  revert acc. induction days as [|day rest IH]; intros acc; cbn [fetchDays];
    [apply pureIO_ret|].
  destruct (JS.toISOString _); [|apply pureIO_throw].
  apply pureIO_bind; [apply fetchHistoricalRates_pure|]. intros a. apply IH.
Qed.

Lemma fetchMonthSoFar_pure now fetch : pureIO (fetchMonthSoFar now fetch).
Proof. apply fetchDays_pure. Qed.

(** The backfill after its requests, when the write does not fail. *)
Lemma fetchLendingRate_batch now fetch batch w :
  (fetchMonthSoFar now fetch w).1 = Ok batch →
  nextFails w = false →
  fetchLendingRate now fetch w
  = (Ok tt, match batch with
            | [] => w
            | _ => after w (OpWriteFile CSV_PATH (sortByTime batch))
                         (<[CSV_PATH := sortByTime batch]> (files w))
            end).
Proof.
  intros Hb Hq. unfold fetchLendingRate, bind.
  rewrite (fetchMonthSoFar_pure now fetch w w), Hb.
  destruct batch as [|r batch]; [done|].
  unfold writeFile, attempt. by rewrite Hq.
Qed.
End BackfillFacts.

(* ===================================================================== *)
(** * The order of the stores that are written *)
(* ===================================================================== *)

Section OrderFacts.
Context {rt : JS.Runtime}.

(** Every store is left as it was or left in order, whatever fails. *)
Definition keepsOrder {A} (m : IO A) : Prop :=
  ∀ w p, files (m w).2 !! p = files w !! p
         ∨ nonDecreasing (store (files (m w).2) p).

Lemma keepsOrder_pure {A} (m : IO A) : pureIO m → keepsOrder m.
Proof. intros Hm w p. rewrite (Hm w w). by left. Qed.

Lemma keepsOrder_bind {A B} (m : IO A) (f : A → IO B) :
  keepsOrder m → (∀ a, keepsOrder (f a)) → keepsOrder (bind m f).
Proof.
  intros Hm Hf w p. unfold bind. specialize (Hm w p).
  destruct (m w) as [[a|e] w1]; cbn [snd] in *; [|done].
  specialize (Hf a w1 p). destruct Hf as [Hf|Hf]; [|by right].
  destruct Hm as [Hm|Hm]; [left; congruence|].
  right. unfold store in *. by rewrite Hf.
Qed.

Lemma keepsOrder_writeFile path rows :
  nonDecreasing rows → keepsOrder (writeFile path rows).
Proof.
  intros Hs w p. unfold writeFile, attempt.
  destruct (nextFails w); cbn [snd after files]; [by left|].
  destruct (decide (p = path)) as [->|Hne].
  - right. unfold store. by rewrite lookup_insert_eq.
  - left. by rewrite lookup_insert_ne.
Qed.

Lemma keepsOrder_existsSync path : keepsOrder (existsSync path).
Proof. intros w p. by left. Qed.

Lemma keepsOrder_readRows path : keepsOrder (readRows path).
Proof.
  intros w p. left. unfold readRows, attempt. by destruct (nextFails w).
Qed.

Lemma keepsOrder_writeCsvData path rows :
  nonDecreasing rows → keepsOrder (Rollover.writeCsvData path rows false).
Proof.
  intros Hs. unfold Rollover.writeCsvData.
  destruct rows as [|r rows]; [apply keepsOrder_pure, pureIO_ret|].
  apply keepsOrder_bind; [apply keepsOrder_writeFile; constructor|].
  intros _. by apply keepsOrder_writeFile.
Qed.

Lemma keepsOrder_archiveMonths cur groups h :
  keepsOrder (Rollover.archiveMonths cur groups h).
Proof.
  revert h. induction groups as [|[k l] rest IH]; intros h;
    cbn [Rollover.archiveMonths]; [apply keepsOrder_pure, pureIO_ret|].
  case_decide; [|apply IH].
  apply keepsOrder_bind; [apply keepsOrder_writeCsvData, sortByTime_sorted|].
  intros _. apply IH.
Qed.

Lemma keepsOrder_performRollover now : keepsOrder (Rollover.performRollover now).
Proof.
  unfold Rollover.performRollover.
  apply keepsOrder_bind; [apply keepsOrder_existsSync|]. intros csvExists.
  destruct (negb csvExists); [apply keepsOrder_pure, pureIO_ret|].
  apply keepsOrder_bind.
  { unfold Rollover.readCsvData. apply keepsOrder_bind; [apply keepsOrder_existsSync|].
    intros e. destruct (negb e); [apply keepsOrder_pure, pureIO_ret|].
    apply keepsOrder_readRows. }
  intros [|r rows]; [apply keepsOrder_pure, pureIO_ret|].
  apply keepsOrder_bind; [apply keepsOrder_archiveMonths|].
  intros []; [|apply keepsOrder_pure, pureIO_ret].
  destruct (default [] _) eqn:E.
  - apply keepsOrder_writeFile. constructor.
  - apply keepsOrder_writeCsvData, sortByTime_sorted.
Qed.

Lemma keepsOrder_backfill now fetch : keepsOrder (History.fetchLendingRate now fetch).
Proof.
  unfold History.fetchLendingRate.
  apply keepsOrder_bind; [apply keepsOrder_pure, fetchMonthSoFar_pure|].
  intros [|r batch]; [apply keepsOrder_pure, pureIO_ret|].
  apply keepsOrder_writeFile, sortByTime_sorted.
Qed.
End OrderFacts.

(* ===================================================================== *)
(** * The properties of the specification *)
(* ===================================================================== *)

(** A row, for the scenarios. *)
Definition row (t r : string) : RateRecord := {| timestamp := t; preRate := r |}.

(** ** Archival of a past month *)

Module ArchiveScenario.
(** June has an archive already; a June row is still in the live store
    when July begins. *)
Definition before : Files :=
  {[ CSV_PATH := [row "2025-06-30T23:00:00Z" "0.04"];
     "data/2025-06.csv" := [row "2025-06-01T00:00:00Z" "0.03"] ]}.
Definition now : string := "2025-07-01T00:05:00.000Z".
Definition run : Result unit * World :=
  Rollover.performRollover (rt := IsoRuntime.runtime) now (quiet before).
End ArchiveScenario.

(** C1, as stated, fails: the rollover replaces the archive of a past
    month by the rows it moves there. The row the archive of June held
    before, in an hour of its own, is in no store afterwards. *)
Lemma rollover_archive_overwrite_loses_records :
  let old := row "2025-06-01T00:00:00Z" "0.03" in
  let moved := row "2025-06-30T23:00:00Z" "0.04" in
  old ∈ store ArchiveScenario.before "data/2025-06.csv"
  ∧ bucketOf (rt := IsoRuntime.runtime) (timestamp old)
    ≠ bucketOf (rt := IsoRuntime.runtime) (timestamp moved)
  ∧ ArchiveScenario.run.1 = Ok tt
  ∧ store (files ArchiveScenario.run.2) "data/2025-06.csv" = [moved]
  ∧ (old ∉ store (files ArchiveScenario.run.2) "data/2025-06.csv")
  ∧ (old ∉ store (files ArchiveScenario.run.2) CSV_PATH).
Proof.
  vm_compute. repeat split.
  - left.
  - discriminate.
  - intros [H|H]%elem_of_cons.
    + discriminate H.
    + by apply elem_of_nil in H.
  - apply not_elem_of_nil.
Qed.

(** C1, amended: for every rollover and every month of the live store
    other than the current one, the archive of that month is afterwards
    the rows of that month in the live store, sorted by time, whatever
    the archive held before; the sort keeps every row of the month and
    leaves none of them later than the next. *)
Theorem rollover_archive_is_sorted_partition :
  ∀ (rt : JS.Runtime) (fs : Files) (now : string) (rows : list RateRecord) (k : string),
    fs !! CSV_PATH = Some rows →
    k ≠ Rollover.getMonthKey now →
    monthRows k rows ≠ [] →
    ∃ w', Rollover.performRollover now (quiet fs) = (Ok tt, w')
          ∧ files w' !! Rollover.archiveFilePath k = Some (sortByTime (monthRows k rows))
          ∧ sortByTime (monthRows k rows) ≡ₚ monthRows k rows
          ∧ nonDecreasing (sortByTime (monthRows k rows)).
Proof.
  intros rt fs now rows k Hlive Hk Hne.
  destruct (performRollover_quiet now (quiet fs)) as (w' & Hrun & Hfiles & _); [done|].
  exists w'. split; [done|]. rewrite Hfiles. cbn [quiet files].
  split; [by apply rolledFiles_archive|].
  split; [apply sortByTime_perm | apply sortByTime_sorted].
Qed.

Lemma rollover_archive_is_sorted_partition_witness :
  ∃ w', Rollover.performRollover (rt := IsoRuntime.runtime)
          ArchiveScenario.now (quiet ArchiveScenario.before) = (Ok tt, w')
        ∧ files w' !! Rollover.archiveFilePath "2025-06"
          = Some (sortByTime (rt := IsoRuntime.runtime)
                    (monthRows (rt := IsoRuntime.runtime) "2025-06"
                       [row "2025-06-30T23:00:00Z" "0.04"]))
        ∧ sortByTime (rt := IsoRuntime.runtime)
            (monthRows (rt := IsoRuntime.runtime) "2025-06"
               [row "2025-06-30T23:00:00Z" "0.04"])
          ≡ₚ monthRows (rt := IsoRuntime.runtime) "2025-06"
               [row "2025-06-30T23:00:00Z" "0.04"]
        ∧ nonDecreasing (rt := IsoRuntime.runtime)
            (sortByTime (rt := IsoRuntime.runtime)
               (monthRows (rt := IsoRuntime.runtime) "2025-06"
                  [row "2025-06-30T23:00:00Z" "0.04"])).
Proof.
  apply (rollover_archive_is_sorted_partition IsoRuntime.runtime
           ArchiveScenario.before ArchiveScenario.now
           [row "2025-06-30T23:00:00Z" "0.04"] "2025-06").
  - by vm_compute.
  - by vm_compute.
  - by vm_compute.
Defined.

(** ** Completeness of the partition by month *)

(** Every archive holds rows of its own month only. The rollover keeps
    this: it writes to the archive of a month the rows of that month. *)
Definition archivesWellKeyed {rt : JS.Runtime} (fs : Files) : Prop :=
  ∀ k r, Rollover.archiveFilePath k ≠ CSV_PATH →
         r ∈ store fs (Rollover.archiveFilePath k) → monthKeyOf r = k.

Module RolloverScenario.
Definition june : RateRecord := row "2025-06-30T23:00:00Z" "0.04".
Definition july : RateRecord := row "2025-07-01T01:00:00Z" "0.05".
Definition before : Files := {[ CSV_PATH := [june; july] ]}.
(** A reading of the clock in July 2025. *)
Definition now : string := "2025-07-01T01:05:00.000Z".
Definition run : Result unit * World :=
  Rollover.performRollover (rt := IsoRuntime.runtime) now (quiet before).
End RolloverScenario.

Lemma performRollover_missing {rt : JS.Runtime} now w :
  files w !! CSV_PATH = None → Rollover.performRollover now w = (Ok tt, w).
Proof.
  intros Hlive. unfold Rollover.performRollover, bind. rewrite existsSync_eq, Hlive.
  by rewrite bool_decide_false by (by intros [? ?]).
Qed.

(** The live store after a rollover holds rows of the current month. *)
Lemma rolledFiles_live_current {rt : JS.Runtime} now fs r :
  r ∈ store (rolledFiles now fs) CSV_PATH → monthKeyOf r = Rollover.getMonthKey now.
Proof.
  unfold store. destruct (fs !! CSV_PATH) as [rows|] eqn:Hlive.
  2:{ unfold rolledFiles. rewrite Hlive, Hlive. intros H. by apply elem_of_nil in H. }
  destruct (hasOldMonth (Rollover.getMonthKey now) (Rollover.groupByMonth rows)) eqn:Hold.
  - rewrite (rolledFiles_live now fs rows Hlive Hold). cbn [default from_option id].
    rewrite elem_of_sortByTime, elem_of_monthRows. by intros [? _].
  - unfold rolledFiles. rewrite Hlive. intros Hr.
    assert (r ∈ rows) as Hin.
    { destruct rows as [|r0 rows]; [by rewrite Hlive in Hr|].
      rewrite Hold, Hlive in Hr. exact Hr. }
    destruct (decide (monthKeyOf r = Rollover.getMonthKey now)) as [|Hne]; [done|].
    assert (hasOldMonth (Rollover.getMonthKey now) (Rollover.groupByMonth rows) = true)
      as Ht by (apply hasOldMonth_true; by exists r).
    congruence.
Qed.

(** The rollover keeps every archive to the rows of its own month. *)
Lemma rolledFiles_well_keyed {rt : JS.Runtime} now fs :
  archivesWellKeyed fs → archivesWellKeyed (rolledFiles now fs).
Proof.
  intros Hkeyed k r Hpath Hin.
  destruct (fs !! CSV_PATH) as [rows|] eqn:Hlive.
  2:{ unfold rolledFiles in Hin. rewrite Hlive in Hin. by apply Hkeyed. }
  destruct (decide (k ≠ Rollover.getMonthKey now ∧ monthRows k rows ≠ []))
    as [[Hcur Hne]|Hno].
  - unfold store in Hin. rewrite (rolledFiles_archive now fs rows k) in Hin by done.
    cbn [default from_option id] in Hin.
    by apply elem_of_sortByTime, elem_of_monthRows in Hin as [? _].
  - unfold store in Hin. rewrite rolledFiles_other in Hin.
    + by apply Hkeyed.
    + done.
    + unfold store. rewrite Hlive. cbn [default from_option id].
      intros r' Hr' Hk' Heq%archiveFilePath_inj. apply Hno. subst k. split; [done|].
      intros E. assert (r' ∈ monthRows (monthKeyOf r') rows) as Hm
        by by apply elem_of_monthRows.
      rewrite E in Hm. by apply elem_of_nil in Hm.
Qed.

(** C4: after a rollover that completes, every row of the live store is of
    the current month, by its own timestamp, and every row that the live
    store held of another month is in the archive named by its own month
    key and in no other archive, nor in the live store; in the scenario of
    June and July 2025 the live store is left with the row of July and the
    archive of June holds the row of June. *)
Theorem rollover_partition_completeness :
  (∀ (rt : JS.Runtime) (fs : Files) (now : string),
      archivesWellKeyed fs →
      ∃ w', Rollover.performRollover now (quiet fs) = (Ok tt, w')
        ∧ (∀ r, r ∈ store (files w') CSV_PATH →
                monthKeyOf r = Rollover.getMonthKey now)
        ∧ (∀ r, r ∈ store fs CSV_PATH →
                monthKeyOf r ≠ Rollover.getMonthKey now →
                (r ∉ store (files w') CSV_PATH)
                ∧ ∀ k, Rollover.archiveFilePath k ≠ CSV_PATH →
                       (r ∈ store (files w') (Rollover.archiveFilePath k)
                        ↔ k = monthKeyOf r)))
  ∧ (RolloverScenario.run.1 = Ok tt
     ∧ files RolloverScenario.run.2 !! CSV_PATH = Some [RolloverScenario.july]
     ∧ files RolloverScenario.run.2 !! "data/2025-06.csv" = Some [RolloverScenario.june]).
Proof.
  split; [|by vm_compute].
  intros rt fs now Hkeyed.
  destruct (performRollover_quiet now (quiet fs)) as (w' & Hrun & Hfiles & _); [done|].
  exists w'. split; [done|]. rewrite Hfiles. cbn [quiet files]. clear w' Hrun Hfiles.
  split; [intros r; apply rolledFiles_live_current|].
  intros r Hr Hk. split.
  { intros Hin. by apply rolledFiles_live_current in Hin. }
  unfold store in Hr. destruct (fs !! CSV_PATH) as [rows|] eqn:Hlive;
    [|by apply elem_of_nil in Hr]. cbn [default from_option id] in Hr.
  intros k Hpath. split.
  - intros Hin. symmetry. by apply (rolledFiles_well_keyed now fs Hkeyed k r).
  - intros ->. unfold store. rewrite (rolledFiles_archive now fs rows (monthKeyOf r)).
    + cbn [default from_option id]. by apply elem_of_sortByTime, elem_of_monthRows.
    + done.
    + done.
    + intros E. assert (r ∈ monthRows (monthKeyOf r) rows) as Hm
        by by apply elem_of_monthRows.
      rewrite E in Hm. by apply elem_of_nil in Hm.
Qed.

Lemma scenario_archives_well_keyed :
  archivesWellKeyed (rt := IsoRuntime.runtime) RolloverScenario.before.
Proof.
  intros k r Hpath Hin. unfold store, RolloverScenario.before in Hin.
  rewrite lookup_singleton_ne in Hin by done. by apply elem_of_nil in Hin.
Defined.

Lemma rollover_partition_completeness_witness :
  ∃ w', Rollover.performRollover (rt := IsoRuntime.runtime)
          RolloverScenario.now (quiet RolloverScenario.before) = (Ok tt, w')
    ∧ (∀ r, r ∈ store (files w') CSV_PATH →
            monthKeyOf (rt := IsoRuntime.runtime) r
            = Rollover.getMonthKey (rt := IsoRuntime.runtime) RolloverScenario.now)
    ∧ (∀ r, r ∈ store RolloverScenario.before CSV_PATH →
            monthKeyOf (rt := IsoRuntime.runtime) r
            ≠ Rollover.getMonthKey (rt := IsoRuntime.runtime) RolloverScenario.now →
            (r ∉ store (files w') CSV_PATH)
            ∧ ∀ k, Rollover.archiveFilePath k ≠ CSV_PATH →
                   (r ∈ store (files w') (Rollover.archiveFilePath k)
                    ↔ k = monthKeyOf (rt := IsoRuntime.runtime) r)).
Proof.
  apply (proj1 rollover_partition_completeness IsoRuntime.runtime
           RolloverScenario.before RolloverScenario.now).
  exact scenario_archives_well_keyed.
Defined.

(** ** Idempotence *)

(** C5: a second rollover, run right after a first one in the same month
    with nothing written in between, returns and leaves every file as the
    first one left it; all it does is read the live store, if there is
    one. *)
Theorem rollover_idempotent :
  ∀ (rt : JS.Runtime) (fs : Files) (now1 now2 : string),
    Rollover.getMonthKey now1 = Rollover.getMonthKey now2 →
    ∃ w1 w2,
      Rollover.performRollover now1 (quiet fs) = (Ok tt, w1)
      ∧ Rollover.performRollover now2 w1 = (Ok tt, w2)
      ∧ files w2 = files w1
      ∧ (trace w2 = trace w1 ∨ trace w2 = trace w1 ++ [OpRead CSV_PATH]).
Proof.
  intros rt fs now1 now2 Hsame.
  destruct (performRollover_quiet now1 (quiet fs)) as (w1 & Hrun1 & Hfiles1 & Hq1); [done|].
  exists w1. cbn [quiet files] in Hfiles1.
  destruct (files w1 !! CSV_PATH) as [rows|] eqn:Hlive.
  - eexists. split; [done|].
    rewrite (performRollover_all_current now2 w1 rows Hlive).
    + unfold nextFails. rewrite Hq1. split; [done|]. split; [done|]. by right.
    + intros r Hr. rewrite <- Hsame. apply (rolledFiles_live_current now1 fs).
      unfold store. by rewrite <- Hfiles1, Hlive.
  - exists w1. split; [done|]. rewrite performRollover_missing by done.
    split; [done|]. split; [done|]. by left.
Qed.

Lemma rollover_idempotent_witness :
  ∃ w1 w2,
    Rollover.performRollover (rt := IsoRuntime.runtime)
      RolloverScenario.now (quiet RolloverScenario.before) = (Ok tt, w1)
    ∧ Rollover.performRollover (rt := IsoRuntime.runtime)
        "2025-07-01T01:05:02.000Z" w1 = (Ok tt, w2)
    ∧ files w2 = files w1
    ∧ (trace w2 = trace w1 ∨ trace w2 = trace w1 ++ [OpRead CSV_PATH]).
Proof.
  apply (rollover_idempotent IsoRuntime.runtime RolloverScenario.before
           RolloverScenario.now "2025-07-01T01:05:02.000Z").
  by vm_compute.
Defined.

(** ** A live store of the current month *)

(** C10: when the live store has rows and all of them are of the current
    month, the rollover attempts one file operation, the read of the live
    store: it writes to no archive and not to the live store, every file
    is as it was, and it returns unless the read fails. *)
Theorem rollover_current_month_writes_nothing :
  ∀ (rt : JS.Runtime) (w : World) (now : string) (rows : list RateRecord),
    files w !! CSV_PATH = Some rows →
    rows ≠ [] →
    (∀ r, r ∈ rows → monthKeyOf r = Rollover.getMonthKey now) →
    files (Rollover.performRollover now w).2 = files w
    ∧ trace (Rollover.performRollover now w).2 = trace w ++ [OpRead CSV_PATH]
    ∧ (nextFails w = false → (Rollover.performRollover now w).1 = Ok tt).
Proof.
  intros rt w now rows Hlive _ Hcur.
  rewrite (performRollover_all_current now w rows Hlive Hcur).
  cbn [fst snd after files trace]. repeat split. by intros ->.
Qed.

Lemma rollover_current_month_writes_nothing_witness :
  let w := quiet {[ CSV_PATH := [RolloverScenario.july] ]} in
  let run := Rollover.performRollover (rt := IsoRuntime.runtime) RolloverScenario.now w in
  files run.2 = files w
  ∧ trace run.2 = trace w ++ [OpRead CSV_PATH]
  ∧ (nextFails w = false → run.1 = Ok tt).
Proof.
  apply (rollover_current_month_writes_nothing IsoRuntime.runtime
           (quiet {[ CSV_PATH := [RolloverScenario.july] ]}) RolloverScenario.now
           [RolloverScenario.july]).
  - by vm_compute.
  - discriminate.
  - intros r Hr. apply list_elem_of_singleton in Hr. subst r. by vm_compute.
Defined.

(** ** Failures during a rollover *)

Module FailureScenario.
(** The rollover of [RolloverScenario] with a disk that fails at the
    fifth file operation: the read, the two writes of the archive of
    June and the write of the header of the live store succeed, the
    write of the rows of the live store fails. *)
Definition before : World :=
  {| files := RolloverScenario.before;
     faults := [false; false; false; false; true];
     trace := [] |}.
Definition run : Result unit * World :=
  Rollover.performRollover (rt := IsoRuntime.runtime) RolloverScenario.now before.
End FailureScenario.

(** C6, as stated, fails: a file operation can fail and leave the live
    store rewritten in part. When the second write of the live store
    fails, the rollover throws, the live store is left with its header
    alone, and the row of July is in no file. *)
Lemma rollover_live_write_failure_truncates_live :
  store (files FailureScenario.before) CSV_PATH
  = [RolloverScenario.june; RolloverScenario.july]
  ∧ FailureScenario.run.1 = Err IOError
  ∧ files FailureScenario.run.2 !! CSV_PATH = Some []
  ∧ ∀ path, RolloverScenario.july ∉ store (files FailureScenario.run.2) path.
Proof.
  split; [by vm_compute|]. split; [by vm_compute|]. split; [by vm_compute|].
  intros path Hin. unfold store in Hin.
  destruct (files FailureScenario.run.2 !! path) as [rows|] eqn:Hp;
    [|by apply elem_of_nil in Hin].
  cbn [default from_option id] in Hin.
  apply elem_of_map_to_list in Hp. revert Hp.
  assert (map_to_list (files FailureScenario.run.2)
          = [(CSV_PATH, []); ("data/2025-06.csv", [RolloverScenario.june])]) as ->
    by by vm_compute.
  intros [Hp|[Hp|Hp]%elem_of_cons]%elem_of_cons.
  - simplify_eq. by apply elem_of_nil in Hin.
  - simplify_eq. apply list_elem_of_singleton in Hin. discriminate Hin.
  - by apply elem_of_nil in Hp.
Qed.

(** C6, amended: in a rollover of a live store that exists, the live store
    is written only after the read and every write of the archive loop
    have succeeded. If one of these operations fails, the rollover throws
    and the live store holds what it held before. *)
Theorem rollover_archive_failure_keeps_live :
  ∀ (rt : JS.Runtime) (w : World) (now : string) (rows : list RateRecord) (i : nat),
    files w !! CSV_PATH = Some rows →
    (i < 1 + archiveWrites now rows)%nat →
    faults w !! i = Some true →
    ∃ w', Rollover.performRollover now w = (Err IOError, w')
          ∧ files w' !! CSV_PATH = Some rows.
Proof. intros rt w now rows i. apply performRollover_fault. Qed.

Lemma rollover_archive_failure_keeps_live_witness :
  ∃ w', Rollover.performRollover (rt := IsoRuntime.runtime) RolloverScenario.now
          {| files := RolloverScenario.before; faults := [false; false; true]; trace := [] |}
        = (Err IOError, w')
        ∧ files w' !! CSV_PATH = Some [RolloverScenario.june; RolloverScenario.july].
Proof.
  apply (rollover_archive_failure_keeps_live IsoRuntime.runtime
           {| files := RolloverScenario.before; faults := [false; false; true]; trace := [] |}
           RolloverScenario.now [RolloverScenario.june; RolloverScenario.july] 2%nat).
  - by vm_compute.
  - vm_compute. lia.
  - reflexivity.
Defined.

(** ** Insertion of a sample in an hour that is taken *)

(** An answer of the summary endpoint with one sample. *)
Definition sample (preRate : string) : Fetched OKXResponse :=
  Http true {| code := "0"; data := Some [{| entry_preRate := preRate |}]; msg := "" |}.

Module DuplicateScenario.
(** The store has a row in hour 0 and a later row in hour 1; the sample
    comes with a timestamp in hour 0. *)
Definition first : RateRecord := row "2025-07-01T00:05:00.000Z" "0.05".
Definition second : RateRecord := row "2025-07-01T01:05:00.000Z" "0.05".
Definition before : Files := {[ CSV_PATH := [first; second] ]}.
Definition candidate : string := "2025-07-01T00:30:00.000Z".
Definition run : Result Outcome * World :=
  Rollover.fetchLendingRate (rt := IsoRuntime.runtime)
    candidate (sample "0.06") candidate (quiet before).
End DuplicateScenario.

(** C3, as stated, fails: only the last row of the store is compared with
    the sample. A row of the same bucket that is not the last one does not
    stop the insertion: the store grows by the sample. *)
Lemma upsert_duplicate_not_last_is_appended :
  bucketOf (rt := IsoRuntime.runtime) (timestamp DuplicateScenario.first)
  = bucketOf (rt := IsoRuntime.runtime) DuplicateScenario.candidate
  ∧ bucketOf (rt := IsoRuntime.runtime) DuplicateScenario.candidate = Some (2025, 6, 1, 0)
  ∧ DuplicateScenario.first ∈ store DuplicateScenario.before CSV_PATH
  ∧ DuplicateScenario.run.1 = Ok Appended
  ∧ store (files DuplicateScenario.run.2) CSV_PATH
    = [DuplicateScenario.first; DuplicateScenario.second;
       row DuplicateScenario.candidate "0.06"].
Proof.
  vm_compute. repeat split. left.
Qed.

(** C3, amended: when the last row of the live store and the sample fall
    in the same (UTC year, month, day, hour) bucket and on the same local
    date, which they always do when local time is UTC, and no file
    operation fails, the insertion leaves every file as it was and reports
    a skipped duplicate. This holds for the script of [src/fetchRate.ts]
    and, on a live store of the current month, for the script with the
    rollover. *)
Theorem upsert_same_hour_as_last_is_skipped :
  ∀ (rt : JS.Runtime) (w : World) (fetched : Fetched OKXResponse) (preRate : string)
    (rows : list RateRecord) (r1 : RateRecord) (timestampNow : string)
    (b : Z * Z * Z * Z),
    accepted fetched preRate →
    files w !! CSV_PATH = Some rows →
    last rows = Some r1 →
    bucketOf (timestamp r1) = Some b →
    bucketOf timestampNow = Some b →
    ((∀ t, JS.LocalTZA t = 0)
     ∨ JS.toDateString (JS.Date_of_string (timestamp r1))
       = JS.toDateString (JS.Date_of_string timestampNow)) →
    faults w = [] →
    (∃ w', Legacy.fetchLendingRate fetched timestampNow w = (Ok SkippedDuplicate, w')
           ∧ files w' = files w)
    ∧ ∀ now, (∀ r, r ∈ rows → monthKeyOf r = Rollover.getMonthKey now) →
             ∃ w', Rollover.fetchLendingRate now fetched timestampNow w
                   = (Ok SkippedDuplicate, w')
                   ∧ files w' = files w.
Proof.
  intros rt w fetched preRate rows r1 timestampNow b Hacc Hlive Hlast Hb1 Hb2 Hdate Hq.
  assert (Legacy.sameHourAsLast rows timestampNow = true) as Hsame.
  { unfold Legacy.sameHourAsLast. rewrite Hlast.
    rewrite (same_bucket_same_hour _ _ b Hb1 Hb2). cbn [andb].
    apply String.eqb_eq. destruct Hdate as [Hutc|Hdate]; [|done].
    by apply (utc_same_bucket_same_date _ _ b). }
  split.
  - rewrite (fetchLendingRate_accepted fetched preRate timestampNow w rows Hacc Hlive).
    unfold nextFails. rewrite Hq, Hsame. by eexists.
  - intros now Hcur. unfold Rollover.fetchLendingRate, bind.
    rewrite (performRollover_all_current now w rows Hlive Hcur).
    unfold nextFails at 1. rewrite Hq.
    rewrite (fetchLendingRate_accepted fetched preRate timestampNow
               (after w (OpRead CSV_PATH) (files w)) rows Hacc Hlive).
    unfold nextFails. cbn [after faults]. rewrite Hq, Hsame. by eexists.
Qed.

Lemma upsert_same_hour_as_last_is_skipped_witness :
  let w := quiet {[ CSV_PATH := [DuplicateScenario.first] ]} in
  (∃ w', Legacy.fetchLendingRate (rt := IsoRuntime.runtime)
           (sample "0.06") DuplicateScenario.candidate w = (Ok SkippedDuplicate, w')
         ∧ files w' = files w)
  ∧ ∀ now, (∀ r, r ∈ [DuplicateScenario.first] →
                 monthKeyOf (rt := IsoRuntime.runtime) r
                 = Rollover.getMonthKey (rt := IsoRuntime.runtime) now) →
           ∃ w', Rollover.fetchLendingRate (rt := IsoRuntime.runtime)
                   now (sample "0.06") DuplicateScenario.candidate w
                 = (Ok SkippedDuplicate, w')
                 ∧ files w' = files w.
Proof.
  apply (upsert_same_hour_as_last_is_skipped IsoRuntime.runtime
           (quiet {[ CSV_PATH := [DuplicateScenario.first] ]}) (sample "0.06") "0.06"
           [DuplicateScenario.first] DuplicateScenario.first
           DuplicateScenario.candidate (2025, 6, 1, 0)).
  - eexists _, []. by vm_compute.
  - by vm_compute.
  - reflexivity.
  - by vm_compute.
  - by vm_compute.
  - left. reflexivity.
  - reflexivity.
Defined.

(** Local time five and a half hours ahead of UTC. *)
Definition halfHourZone : JS.Runtime := {|
  JS.Date_parse := IsoRuntime.parseIso;
  JS.LocalTZA := λ _, 19800000;
  JS.UTC := λ t, t - 19800000;
  JS.parseFloat := IsoRuntime.parseFloatClass
|}.

(** Why the local date is in the amended C3: where local midnight falls
    inside a UTC hour, two timestamps of one bucket can have two local
    dates, and the sample is then inserted. *)
Example upsert_same_bucket_across_local_midnight :
  let last := row "2025-07-01T18:10:00.000Z" "0.05" in
  let candidate := "2025-07-01T18:40:00.000Z" in
  let run := Legacy.fetchLendingRate (rt := halfHourZone) (sample "0.06") candidate
               (quiet {[ CSV_PATH := [last] ]}) in
  bucketOf (rt := halfHourZone) (timestamp last) = bucketOf (rt := halfHourZone) candidate
  ∧ JS.toDateString (rt := halfHourZone) (JS.Date_of_string (rt := halfHourZone) (timestamp last))
    = "Tue Jul 01 2025"
  ∧ JS.toDateString (rt := halfHourZone) (JS.Date_of_string (rt := halfHourZone) candidate)
    = "Wed Jul 02 2025"
  ∧ run.1 = Ok Appended
  ∧ store (files run.2) CSV_PATH = [last; row candidate "0.06"].
Proof. vm_compute. repeat split. Qed.

(** ** The order of a store after it is written *)

Section AppendFacts.
Context {rt : JS.Runtime}.

(** The insertion leaves the live store as it was or adds one row, with
    the timestamp of the sample, at its end. *)
Lemma fetchLendingRate_store fetched timestampNow w :
  let w' := (Legacy.fetchLendingRate fetched timestampNow w).2 in
  store (files w') CSV_PATH = store (files w) CSV_PATH
  ∨ ∃ preRate,
      store (files w') CSV_PATH
      = store (files w) CSV_PATH ++ [{| timestamp := timestampNow; preRate := preRate |}].
Proof.
  cbv zeta. unfold Legacy.fetchLendingRate.
  destruct fetched as [|ok body]; [by left|].
  destruct ok; cbn [negb]; [|by left].
  destruct (negb (String.eqb (code body) "0")); [by left|].
  destruct (data body) as [[|entry rest]|]; [by left| |by left].
  destruct (JS.isNaN _ || negb _); [by left|].
  destruct w as [fs fl tr].
  unfold bind, existsSync, writeFile, readRows, appendFile, attempt, ret, nextFails,
    after, store. cbn [files faults trace].
  destruct (fs !! CSV_PATH) as [rows|] eqn:Hlive.
  - rewrite bool_decide_true by done.
    destruct fl as [|[] [|[] fl]]; simpl; rewrite ?Hlive; simpl; try (by left);
      destruct (Legacy.sameHourAsLast rows timestampNow); simpl; rewrite ?Hlive;
      try (by left);
      right; eexists; rewrite lookup_insert_eq; reflexivity.
  - rewrite bool_decide_false by (by intros [? ?]).
    destruct fl as [|[] [|[] [|[] fl]]]; simpl;
      rewrite ?Hlive, ?lookup_insert_eq; simpl;
      rewrite ?Hlive, ?lookup_insert_eq; try (by left);
      right; eexists; reflexivity.
Qed.
End AppendFacts.

Module AppendScenario.
(** The live store is in order, and its last row is later than the
    reading of the clock that stamps the sample. *)
Definition last : RateRecord := row "2025-07-01T05:00:00.000Z" "0.05".
Definition before : Files := {[ CSV_PATH := [last] ]}.
Definition timestampNow : string := "2025-07-01T03:10:00.000Z".
Definition run : Result Outcome * World :=
  Rollover.fetchLendingRate (rt := IsoRuntime.runtime)
    timestampNow (sample "0.06") timestampNow (quiet before).
End AppendScenario.

(** C7, as stated, fails: the insertion of a sample adds the row at the end
    of the live store and sorts nothing. After it the store on disk is out
    of order when its last row was later than the sample. *)
Lemma append_breaks_sort_order :
  nonDecreasing (rt := IsoRuntime.runtime) (store AppendScenario.before CSV_PATH)
  ∧ AppendScenario.run.1 = Ok Appended
  ∧ store (files AppendScenario.run.2) CSV_PATH
    = [AppendScenario.last; row AppendScenario.timestampNow "0.06"]
  ∧ ¬ nonDecreasing (rt := IsoRuntime.runtime)
        (store (files AppendScenario.run.2) CSV_PATH).
Proof.
  assert (store (files AppendScenario.run.2) CSV_PATH
          = [AppendScenario.last; row AppendScenario.timestampNow "0.06"]) as Hstore
    by by vm_compute.
  rewrite Hstore. split.
  { unfold store, AppendScenario.before. rewrite lookup_singleton_eq.
    repeat constructor. }
  split; [by vm_compute|]. split; [done|].
  intros Hs. inversion Hs as [|? ? _ Hhd]; subst. inversion Hhd as [|? ? Hle]; subst.
  vm_compute in Hle. by apply Hle.
Qed.

(** C7, amended: the rollover and the backfill leave every store as it was
    or in non-decreasing order of time on disk, whatever fails; the
    insertion of a sample leaves the live store in order when the store
    was in order and its last row was not later than the sample. *)
Theorem store_writes_keep_order :
  ∀ (rt : JS.Runtime),
    (∀ now w path,
        files (Rollover.performRollover now w).2 !! path = files w !! path
        ∨ nonDecreasing (store (files (Rollover.performRollover now w).2) path))
    ∧ (∀ now fetch w path,
          files (History.fetchLendingRate now fetch w).2 !! path = files w !! path
          ∨ nonDecreasing (store (files (History.fetchLendingRate now fetch w).2) path))
    ∧ (∀ fetched timestampNow w,
          nonDecreasing (store (files w) CSV_PATH) →
          (∀ r preRate, last (store (files w) CSV_PATH) = Some r →
                        notLater r {| timestamp := timestampNow; preRate := preRate |}) →
          nonDecreasing
            (store (files (Legacy.fetchLendingRate fetched timestampNow w).2) CSV_PATH)).
Proof.
  intros rt. split; [|split].
  - intros now. apply keepsOrder_performRollover.
  - intros now fetch. apply keepsOrder_backfill.
  - intros fetched timestampNow w Hs Hlast.
    destruct (fetchLendingRate_store fetched timestampNow w) as [->|[preRate ->]];
      [done|].
    apply nonDecreasing_snoc; [done|]. intros r Hr. by apply Hlast.
Qed.

Lemma store_writes_keep_order_witness :
  nonDecreasing (rt := IsoRuntime.runtime)
    (store (files (Legacy.fetchLendingRate (rt := IsoRuntime.runtime)
                     (sample "0.06") "2025-07-01T06:05:00.000Z"
                     (quiet AppendScenario.before)).2) CSV_PATH).
Proof.
  apply (proj2 (proj2 (store_writes_keep_order IsoRuntime.runtime))
           (sample "0.06") "2025-07-01T06:05:00.000Z" (quiet AppendScenario.before)).
  - unfold store, quiet, AppendScenario.before. cbn [files].
    rewrite lookup_singleton_eq. repeat constructor.
  - unfold store, quiet, AppendScenario.before. cbn [files].
    rewrite lookup_singleton_eq. intros r preRate Hr. injection Hr as <-.
    vm_compute. discriminate.
Defined.

(** ** Loading a store *)

(** A row that should not be in a store: its timestamp does not parse, or
    its rate is not a finite number. *)
Definition malformed {rt : JS.Runtime} (r : RateRecord) : Prop :=
  JS.Date_of_string (timestamp r) = None
  ∨ JS.isFinite (JS.parseFloat (preRate r)) = false.

Module LoadScenario.
Definition bad : RateRecord := row "yesterday" "NaN".
Definition before : Files := {[ CSV_PATH := [bad] ]}.
Definition run : Result (list RateRecord) * World :=
  Rollover.readCsvData CSV_PATH (quiet before).
End LoadScenario.

(** C8, as stated, fails in its second half: the load checks no row. A
    store whose only row has a timestamp that does not parse and the rate
    [NaN] is loaded without an error, the row included. *)
Lemma load_accepts_malformed_row :
  JS.Date_of_string (rt := IsoRuntime.runtime) (timestamp LoadScenario.bad) = None
  ∧ JS.isFinite (JS.parseFloat (Runtime := IsoRuntime.runtime) (preRate LoadScenario.bad))
    = false
  ∧ malformed (rt := IsoRuntime.runtime) LoadScenario.bad
  ∧ LoadScenario.run.1 = Ok [LoadScenario.bad]
  ∧ LoadScenario.run.1 ≠ Err IOError.
Proof.
  assert (LoadScenario.run.1 = Ok [LoadScenario.bad]) as Hrun by by vm_compute.
  rewrite Hrun. split; [by vm_compute|]. split; [by vm_compute|].
  split; [left; by vm_compute|]. split; [done | discriminate].
Qed.

(** C8, amended: the load of a store whose file is missing returns no row
    and no error; the load of a store whose file is there returns the rows
    of the file as they are, malformed or not, and fails only when the
    read of the file fails. *)
Theorem readCsvData_returns_rows_unchecked :
  ∀ (filePath : string) (w : World),
    (files w !! filePath = None → Rollover.readCsvData filePath w = (Ok [], w))
    ∧ (∀ rows, files w !! filePath = Some rows →
               (Rollover.readCsvData filePath w).1
               = if nextFails w then Err IOError else Ok rows).
Proof.
  intros filePath w. unfold Rollover.readCsvData, bind. rewrite existsSync_eq. split.
  - intros ->. by rewrite bool_decide_false by (by intros [? ?]).
  - intros rows Hrows. rewrite Hrows, bool_decide_true by done. cbn [negb].
    unfold readRows, attempt. destruct (nextFails w); [done|]. by rewrite Hrows.
Qed.

Lemma readCsvData_returns_rows_unchecked_witness :
  (Rollover.readCsvData "data/2025-05.csv" (quiet LoadScenario.before)
   = (Ok [], quiet LoadScenario.before))
  ∧ (Rollover.readCsvData CSV_PATH (quiet LoadScenario.before)).1
    = Ok [LoadScenario.bad].
Proof.
  split.
  - by apply (proj1 (readCsvData_returns_rows_unchecked
                       "data/2025-05.csv" (quiet LoadScenario.before))).
  - by apply (proj2 (readCsvData_returns_rows_unchecked
                       CSV_PATH (quiet LoadScenario.before)) [LoadScenario.bad]).
Defined.

(** ** The backfill and the store it is aimed at *)

(** The answer of the history endpoint with these entries, whatever the
    dates of the request. *)
Definition history (entries : list History.HistoryEntry)
  : string → string → Fetched History.OKXHistoryResponse :=
  λ _ _, Http true {| History.code := "0"; History.data := Some entries;
                      History.msg := "" |}.

Module BackfillScenario.
(** 2025-07-01T01:30:00Z: the first day of the month, in hour 1. *)
Definition now : Z := 1751333400000.
Definition existing : RateRecord := row "2025-07-01T00:00:00Z" "0.05".
Definition before : Files := {[ CSV_PATH := [existing] ]}.

(** The endpoint has a sample for hour 0, at 1751328000000, and one for
    hour 1, at 1751331600000. *)
Definition entries : list History.HistoryEntry :=
  [ {| History.ts := "1751328000000"; History.rate := "0.06" |};
    {| History.ts := "1751331600000"; History.rate := "0.07" |} ].
Definition run : Result unit * World :=
  History.fetchLendingRate (rt := IsoRuntime.runtime) now (history entries)
    (quiet before).

(** The endpoint has the sample of hour 1 alone. *)
Definition runHourOne : Result unit * World :=
  History.fetchLendingRate (rt := IsoRuntime.runtime) now
    (history [ {| History.ts := "1751331600000"; History.rate := "0.07" |} ])
    (quiet before).

(** The endpoint has a sample whose rate is not a number. *)
Definition runNaN : Result unit * World :=
  History.fetchLendingRate (rt := IsoRuntime.runtime) now
    (history [ {| History.ts := "1751328000000"; History.rate := "NaN" |} ])
    (quiet before).
End BackfillScenario.

(** C2, as stated, fails: the backfill does not load the store it writes.
    A row of the store in an hour for which the batch has no sample is gone
    after the backfill: the store holds the batch and nothing else. *)
Lemma backfill_discards_existing_store :
  store BackfillScenario.before CSV_PATH = [BackfillScenario.existing]
  ∧ bucketOf (rt := IsoRuntime.runtime) (timestamp BackfillScenario.existing)
    = Some (2025, 6, 1, 0)
  ∧ BackfillScenario.runHourOne.1 = Ok tt
  ∧ store (files BackfillScenario.runHourOne.2) CSV_PATH
    = [row "2025-07-01T01:00:00.000Z" "0.07"]
  ∧ bucketOf (rt := IsoRuntime.runtime) "2025-07-01T01:00:00.000Z"
    = Some (2025, 6, 1, 1).
Proof. vm_compute. repeat split. Qed.

(** C2, amended: when the requests of the backfill return a batch with at
    least one row and the write does not fail, the store afterwards is the
    batch sorted by time, a rearrangement of the batch in non-decreasing
    order, written in one piece over whatever the store held; with an
    empty batch nothing is written. In the scenario of the specification
    the store has afterwards exactly the two rows of the batch, in
    order. *)
Theorem backfill_store_is_sorted_batch :
  (∀ (rt : JS.Runtime) (fs : Files) (now : Z)
     (fetch : string → string → Fetched History.OKXHistoryResponse)
     (batch : list RateRecord),
      (History.fetchMonthSoFar now fetch (quiet fs)).1 = Ok batch →
      ∃ w', History.fetchLendingRate now fetch (quiet fs) = (Ok tt, w')
        ∧ files w' = match batch with
                     | [] => fs
                     | _ => <[CSV_PATH := sortByTime batch]> fs
                     end
        ∧ sortByTime batch ≡ₚ batch
        ∧ nonDecreasing (sortByTime batch))
  ∧ (BackfillScenario.run.1 = Ok tt
     ∧ files BackfillScenario.run.2 !! CSV_PATH
       = Some [row "2025-07-01T00:00:00.000Z" "0.06";
               row "2025-07-01T01:00:00.000Z" "0.07"]
     ∧ nonDecreasing (rt := IsoRuntime.runtime)
         [row "2025-07-01T00:00:00.000Z" "0.06"; row "2025-07-01T01:00:00.000Z" "0.07"]).
Proof.
  split.
  - intros rt fs now fetch batch Hbatch.
    rewrite (fetchLendingRate_batch now fetch batch (quiet fs) Hbatch) by done.
    eexists. split; [done|].
    split; [by destruct batch|].
    split; [apply sortByTime_perm | apply sortByTime_sorted].
  - split; [by vm_compute|]. split; [by vm_compute|].
    repeat constructor; by vm_compute.
Qed.

Lemma backfill_store_is_sorted_batch_witness :
  ∃ w', History.fetchLendingRate (rt := IsoRuntime.runtime) BackfillScenario.now
          (history BackfillScenario.entries) (quiet BackfillScenario.before) = (Ok tt, w')
    ∧ files w'
      = <[CSV_PATH := sortByTime (rt := IsoRuntime.runtime)
                        [row "2025-07-01T00:00:00.000Z" "0.06";
                         row "2025-07-01T01:00:00.000Z" "0.07"]]>
          BackfillScenario.before
    ∧ sortByTime (rt := IsoRuntime.runtime)
        [row "2025-07-01T00:00:00.000Z" "0.06"; row "2025-07-01T01:00:00.000Z" "0.07"]
      ≡ₚ [row "2025-07-01T00:00:00.000Z" "0.06"; row "2025-07-01T01:00:00.000Z" "0.07"]
    ∧ nonDecreasing (rt := IsoRuntime.runtime)
        (sortByTime (rt := IsoRuntime.runtime)
           [row "2025-07-01T00:00:00.000Z" "0.06"; row "2025-07-01T01:00:00.000Z" "0.07"]).
Proof.
  apply (proj1 backfill_store_is_sorted_batch IsoRuntime.runtime
           BackfillScenario.before BackfillScenario.now
           (history BackfillScenario.entries)
           [row "2025-07-01T00:00:00.000Z" "0.06"; row "2025-07-01T01:00:00.000Z" "0.07"]).
  by vm_compute.
Defined.

(** ** Rates that are not finite numbers *)

(** The hourly fetch rejects a sample whose rate is not a finite number
    before it touches a file. *)
Lemma live_rejects_non_finite_rate {rt : JS.Runtime} body entry rest timestampNow w :
  code body = "0" → data body = Some (entry :: rest) →
  JS.isFinite (JS.parseFloat (entry_preRate entry)) = false →
  Legacy.fetchLendingRate (Http true body) timestampNow w = (Err InvalidRate, w).
Proof.
  intros Hcode Hdata Hfin. unfold Legacy.fetchLendingRate. cbn [negb].
  rewrite Hcode, Hdata. cbn [String.eqb Ascii.eqb Bool.eqb negb].
  rewrite Hfin. cbn [negb]. by rewrite orb_true_r.
Qed.

(** C9 holds for the hourly fetch and fails for the backfill, which copies
    the rate of every entry into the store unchecked: here the endpoint
    answers with the rate [NaN], the backfill returns without an error and
    the row with that rate is in the store. *)
Theorem backfill_writes_non_finite_rate :
  JS.parseFloat (Runtime := IsoRuntime.runtime) "NaN" = JS.IsNaN
  ∧ BackfillScenario.runNaN.1 = Ok tt
  ∧ files BackfillScenario.runNaN.2 !! CSV_PATH
    = Some [row "2025-07-01T00:00:00.000Z" "NaN"]
  ∧ Legacy.fetchLendingRate (rt := IsoRuntime.runtime) (sample "NaN")
      "2025-07-01T01:30:00.000Z" (quiet BackfillScenario.before)
    = (Err InvalidRate, quiet BackfillScenario.before).
Proof.
  split; [by vm_compute|]. split; [by vm_compute|]. split; [by vm_compute|].
  by apply (live_rejects_non_finite_rate (rt := IsoRuntime.runtime) _
              {| entry_preRate := "NaN" |} []).
Qed.

(* ===================================================================== *)
(** * Further properties of the rollover *)
(* ===================================================================== *)

Section RolloverExtras.
Context {rt : JS.Runtime}.
Import Rollover.

(** The loop writes to the archives of the months it archives, and to
    nothing else. *)
Lemma archiveMonths_frame_old cur groups h w q :
  (∀ g, g ∈ groups → g.1 ≠ cur → archiveFilePath g.1 ≠ q) →
  files (archiveMonths cur groups h w).2 !! q = files w !! q.
Proof.
  revert h w. induction groups as [|[k l] rest IH]; intros h w Hq; [done|].
  cbn [archiveMonths].
  assert (∀ g, g ∈ rest → g.1 ≠ cur → archiveFilePath g.1 ≠ q) as Hrest
    by (intros g Hg; apply Hq; by right).
  case_decide as Hk; [|by apply IH].
  assert (q ≠ archiveFilePath k) as Hne.
  { intros ->. by apply (Hq (k, l)); [left| |]. }
  unfold bind.
  pose proof (writeCsvData_frame (archiveFilePath k) (sortByTime l) w q Hne) as Hw.
  destruct (writeCsvData _ _ _ w) as [[[]|e] w1]; cbn [snd] in *; [|done].
  by rewrite IH.
Qed.

Lemma performRollover_frame now w q :
  q ≠ CSV_PATH →
  (∀ r, r ∈ store (files w) CSV_PATH → monthKeyOf r ≠ getMonthKey now →
        archiveFilePath (monthKeyOf r) ≠ q) →
  files (performRollover now w).2 !! q = files w !! q.
Proof.
  intros Hq Hrows. destruct (files w !! CSV_PATH) as [rows|] eqn:Hlive.
  2:{ by rewrite performRollover_missing. }
  rewrite (performRollover_live now w rows Hlive).
  destruct (nextFails w); [done|]. destruct rows as [|r0 rows]; [done|].
  set (w1 := after w (OpRead CSV_PATH) (files w)).
  assert (files (archiveMonths (getMonthKey now) (groupByMonth (r0 :: rows)) false w1).2 !! q
          = files w !! q) as Hloop.
  { rewrite archiveMonths_frame_old; [done|].
    intros [k l] Hg Hk. apply groupByMonth_key in Hg as (r & Hr & Hkr).
    cbn [fst] in *. subst k. apply Hrows; [|done].
    unfold store. by rewrite Hlive. }
  unfold bind.
  destruct (archiveMonths _ _ _ w1) as [[[]|e] w2]; cbn [snd] in *; try done.
  destruct (default [] _) as [|c cs].
  - by rewrite writeFile_frame.
  - by rewrite writeCsvData_frame.
Qed.

Lemma getMonth_elem_of m k l : getMonth m k = Some l → (k, l) ∈ m.
Proof.
  induction m as [|[k0 l0] m IH]; [done|]. cbn [getMonth].
  case_decide as Hd; intros Hg; simplify_eq; [left | right; by apply IH].
Qed.

(** The live store among the rolled files. *)
Lemma rolledFiles_live_rows now fs rows :
  fs !! CSV_PATH = Some rows →
  store (rolledFiles now fs) CSV_PATH
  = if decide (Forall (λ r, monthKeyOf r = getMonthKey now) rows) then rows
    else sortByTime (monthRows (getMonthKey now) rows).
Proof.
  intros Hlive.
  destruct (hasOldMonth (getMonthKey now) (groupByMonth rows)) eqn:Hold.
  - unfold store. rewrite (rolledFiles_live now fs rows Hlive Hold).
    apply hasOldMonth_true in Hold as (r & Hr & Hk).
    rewrite decide_False; [done|]. intros Hall.
    by apply (proj1 (Forall_forall _ _) Hall) in Hr.
  - rewrite decide_True.
    + unfold store, rolledFiles. rewrite Hlive.
      destruct rows as [|r0 rows]; [by rewrite Hlive|]. by rewrite Hold, Hlive.
    + apply Forall_forall. intros r Hr.
      destruct (decide (monthKeyOf r = getMonthKey now)) as [|Hne]; [done|].
      assert (hasOldMonth (getMonthKey now) (groupByMonth rows) = true) as Ht
        by (apply hasOldMonth_true; by exists r).
      congruence.
Qed.
End RolloverExtras.

(** X1: whatever fails, a rollover changes no file other than the live
    store and the archives of the months, other than the current one, of
    the rows of the live store. *)
Theorem rollover_changes_only_live_and_old_archives :
  ∀ (rt : JS.Runtime) (w : World) (now path : string),
    path ≠ CSV_PATH →
    (∀ r, r ∈ store (files w) CSV_PATH →
          monthKeyOf r ≠ Rollover.getMonthKey now →
          Rollover.archiveFilePath (monthKeyOf r) ≠ path) →
    files (Rollover.performRollover now w).2 !! path = files w !! path.
Proof. intros rt w now path. apply performRollover_frame. Qed.

Lemma rollover_changes_only_live_and_old_archives_witness :
  files (Rollover.performRollover (rt := IsoRuntime.runtime) ArchiveScenario.now
           {| files := <[ "data/2025-05.csv" := [row "2025-05-31T23:00:00Z" "0.02"] ]>
                         ArchiveScenario.before;
              faults := [false; false; true]; trace := [] |}).2 !! "data/2025-05.csv"
  = Some [row "2025-05-31T23:00:00Z" "0.02"].
Proof.
  rewrite (rollover_changes_only_live_and_old_archives IsoRuntime.runtime _
             ArchiveScenario.now "data/2025-05.csv").
  - reflexivity.
  - discriminate.
  - intros r Hr _. vm_compute in Hr. apply list_elem_of_singleton in Hr. subst r.
    vm_compute. discriminate.
Defined.

(** X2: a rollover of a live store that is missing, or has no row, changes
    no file and writes nothing: it reads the store if the file is there,
    and it returns unless that read fails. *)
Theorem rollover_without_rows_does_nothing :
  ∀ (rt : JS.Runtime) (w : World) (now : string),
    store (files w) CSV_PATH = [] →
    files (Rollover.performRollover now w).2 = files w
    ∧ trace (Rollover.performRollover now w).2
      = trace w ++ (if bool_decide (is_Some (files w !! CSV_PATH))
                    then [OpRead CSV_PATH] else [])
    ∧ (nextFails w = false → (Rollover.performRollover now w).1 = Ok tt).
Proof.
  intros rt w now Hempty. unfold store in Hempty.
  destruct (files w !! CSV_PATH) as [rows|] eqn:Hlive.
  - cbn [default from_option id] in Hempty. subst rows.
    rewrite (performRollover_live now w [] Hlive).
    rewrite bool_decide_true by done.
    destruct (nextFails w); cbn [fst snd after files trace]; repeat split; done.
  - rewrite performRollover_missing by done.
    rewrite bool_decide_false by (by intros [? ?]).
    cbn [fst snd]. by rewrite app_nil_r.
Qed.

Lemma rollover_without_rows_does_nothing_witness :
  let w := quiet {[ CSV_PATH := [] ]} in
  let run := Rollover.performRollover (rt := IsoRuntime.runtime) ArchiveScenario.now w in
  files run.2 = files w
  ∧ trace run.2
    = trace w ++ (if bool_decide (is_Some (files w !! CSV_PATH))
                  then [OpRead CSV_PATH] else [])
  ∧ (nextFails w = false → run.1 = Ok tt).
Proof.
  apply (rollover_without_rows_does_nothing IsoRuntime.runtime
           (quiet {[ CSV_PATH := [] ]}) ArchiveScenario.now).
  reflexivity.
Defined.

(** X3: a row of the live store whose timestamp is no date has the month
    key [NaN-NaN]; when the clock reads a date and nothing fails, the
    rollover moves the row out of the live store into
    [data/NaN-NaN.csv]. *)
Theorem rollover_archives_unparseable_rows :
  ∀ (rt : JS.Runtime) (fs : Files) (now : string) (rows : list RateRecord)
    (r : RateRecord),
    fs !! CSV_PATH = Some rows →
    r ∈ rows →
    JS.Date_of_string (timestamp r) = None →
    is_Some (JS.Date_of_string now) →
    ∃ w', Rollover.performRollover now (quiet fs) = (Ok tt, w')
          ∧ r ∈ store (files w') "data/NaN-NaN.csv"
          ∧ r ∉ store (files w') CSV_PATH.
Proof.
  intros rt fs now rows r Hlive Hr Hbad Hnow.
  destruct (performRollover_quiet now (quiet fs)) as (w' & Hrun & Hfiles & _); [done|].
  exists w'. split; [done|]. rewrite Hfiles. cbn [quiet files].
  assert (monthKeyOf r = "NaN-NaN") as Hkey by by apply getMonthKey_invalid.
  assert ("NaN-NaN" ≠ Rollover.getMonthKey now) as Hcur.
  { intros E. by apply (getMonthKey_valid_not_NaN now). }
  split.
  - unfold store.
    change "data/NaN-NaN.csv" with (Rollover.archiveFilePath "NaN-NaN").
    rewrite (rolledFiles_archive now fs rows "NaN-NaN" Hlive Hcur).
    + cbn [default from_option id]. by apply elem_of_sortByTime, elem_of_monthRows.
    + intros E. assert (r ∈ monthRows "NaN-NaN" rows) as Hm
        by by apply elem_of_monthRows.
      rewrite E in Hm. by apply elem_of_nil in Hm.
  - intros Hin. apply rolledFiles_live_current in Hin. congruence.
Qed.

Lemma rollover_archives_unparseable_rows_witness :
  ∃ w', Rollover.performRollover (rt := IsoRuntime.runtime) ArchiveScenario.now
          (quiet LoadScenario.before) = (Ok tt, w')
        ∧ LoadScenario.bad ∈ store (files w') "data/NaN-NaN.csv"
        ∧ LoadScenario.bad ∉ store (files w') CSV_PATH.
Proof.
  apply (rollover_archives_unparseable_rows IsoRuntime.runtime LoadScenario.before
           ArchiveScenario.now [LoadScenario.bad] LoadScenario.bad).
  - reflexivity.
  - left.
  - by vm_compute.
  - vm_compute. by eexists.
Defined.

(** X4: the grouping of the rows by month splits the store: the keys of
    the map are distinct, and a month is in the map with a list of rows
    exactly when that list is, in the order of the store, the rows of the
    store with that month key, and there is one at least. *)
Theorem groupByMonth_partitions_store :
  ∀ (rt : JS.Runtime) (rows : list RateRecord),
    NoDup (Rollover.groupByMonth rows).*1
    ∧ ∀ k l, (k, l) ∈ Rollover.groupByMonth rows
             ↔ l = filter (λ r, Rollover.getMonthKey (timestamp r) = k) rows ∧ l ≠ [].
Proof.
  intros rt rows. split; [apply groupByMonth_NoDup|].
  intros k l. split; [apply groupByMonth_elem|].
  intros [Hl Hne].
  change (filter (λ r, Rollover.getMonthKey (timestamp r) = k) rows)
    with (monthRows k rows) in Hl.
  subst l. apply getMonth_elem_of. rewrite getMonth_groupByMonth.
  by destruct (monthRows k rows).
Qed.

Lemma groupByMonth_partitions_store_witness :
  (("2025-06", [RolloverScenario.june])
   ∈ Rollover.groupByMonth (rt := IsoRuntime.runtime)
       [RolloverScenario.june; RolloverScenario.july])
  ∧ ("2025-07", [RolloverScenario.july])
    ∈ Rollover.groupByMonth (rt := IsoRuntime.runtime)
        [RolloverScenario.june; RolloverScenario.july].
Proof.
  split.
  - apply (proj2 (groupByMonth_partitions_store IsoRuntime.runtime
                    [RolloverScenario.june; RolloverScenario.july])).
    split; [by vm_compute | discriminate].
  - apply (proj2 (groupByMonth_partitions_store IsoRuntime.runtime
                    [RolloverScenario.june; RolloverScenario.july])).
    split; [by vm_compute | discriminate].
Defined.

Lemma monthRows_all {rt : JS.Runtime} k rows :
  Forall (λ r, monthKeyOf r = k) rows → monthRows k rows = rows.
Proof.
  intros Hall. unfold monthRows. induction Hall as [|r rows' Hr Hall IH]; [done|].
  rewrite filter_cons_True by done. by rewrite IH.
Qed.

(** X5: after a rollover in which nothing fails, the live store holds
    exactly the rows it held of the current month: the store as it was
    when every row was of the current month, and otherwise those rows
    sorted by time, none lost and none doubled. *)
Theorem rollover_live_keeps_current_rows :
  ∀ (rt : JS.Runtime) (fs : Files) (now : string) (rows : list RateRecord),
    fs !! CSV_PATH = Some rows →
    ∃ w', Rollover.performRollover now (quiet fs) = (Ok tt, w')
      ∧ store (files w') CSV_PATH
        = (if decide (Forall (λ r, monthKeyOf r = Rollover.getMonthKey now) rows)
           then rows
           else sortByTime (monthRows (Rollover.getMonthKey now) rows))
      ∧ store (files w') CSV_PATH ≡ₚ monthRows (Rollover.getMonthKey now) rows.
Proof.
  intros rt fs now rows Hlive.
  destruct (performRollover_quiet now (quiet fs)) as (w' & Hrun & Hfiles & _); [done|].
  exists w'. split; [done|]. rewrite Hfiles. cbn [quiet files].
  rewrite (rolledFiles_live_rows now fs rows Hlive). split; [done|].
  case_decide as Hall; [|apply sortByTime_perm]. by rewrite monthRows_all.
Qed.

Lemma rollover_live_keeps_current_rows_witness :
  ∃ w', Rollover.performRollover (rt := IsoRuntime.runtime) RolloverScenario.now
          (quiet RolloverScenario.before) = (Ok tt, w')
    ∧ store (files w') CSV_PATH
      = (if decide (Forall (λ r, monthKeyOf (rt := IsoRuntime.runtime) r
                                 = Rollover.getMonthKey (rt := IsoRuntime.runtime)
                                     RolloverScenario.now)
                      [RolloverScenario.june; RolloverScenario.july])
         then [RolloverScenario.june; RolloverScenario.july]
         else sortByTime (rt := IsoRuntime.runtime)
                (monthRows (rt := IsoRuntime.runtime)
                   (Rollover.getMonthKey (rt := IsoRuntime.runtime) RolloverScenario.now)
                   [RolloverScenario.june; RolloverScenario.july]))
    ∧ store (files w') CSV_PATH
      ≡ₚ monthRows (rt := IsoRuntime.runtime)
           (Rollover.getMonthKey (rt := IsoRuntime.runtime) RolloverScenario.now)
           [RolloverScenario.june; RolloverScenario.july].
Proof.
  apply (rollover_live_keeps_current_rows IsoRuntime.runtime RolloverScenario.before
           RolloverScenario.now [RolloverScenario.june; RolloverScenario.july]).
  reflexivity.
Defined.

(** X6: a rollover in which nothing fails keeps the archives sorted by
    month: when every archive held rows of its own month only before, so
    does every archive afterwards. *)
Theorem rollover_keeps_archives_well_keyed :
  ∀ (rt : JS.Runtime) (fs : Files) (now : string),
    archivesWellKeyed fs →
    ∃ w', Rollover.performRollover now (quiet fs) = (Ok tt, w')
          ∧ archivesWellKeyed (files w').
Proof.
  intros rt fs now Hkeyed.
  destruct (performRollover_quiet now (quiet fs)) as (w' & Hrun & Hfiles & _); [done|].
  exists w'. split; [done|]. rewrite Hfiles. by apply rolledFiles_well_keyed.
Qed.

Lemma rollover_keeps_archives_well_keyed_witness :
  ∃ w', Rollover.performRollover (rt := IsoRuntime.runtime) RolloverScenario.now
          (quiet RolloverScenario.before) = (Ok tt, w')
        ∧ archivesWellKeyed (rt := IsoRuntime.runtime) (files w').
Proof.
  apply (rollover_keeps_archives_well_keyed IsoRuntime.runtime RolloverScenario.before
           RolloverScenario.now).
  exact scenario_archives_well_keyed.
Defined.

(** X7: the archive of the month of any timestamp, one that is no date
    included, is a file other than the live store, and two timestamps
    share an archive only if they have the same month key. *)
Theorem archive_files_apart_from_live :
  ∀ (rt : JS.Runtime) (timestamp1 timestamp2 : string),
    Rollover.archiveFilePath (Rollover.getMonthKey timestamp1) ≠ CSV_PATH
    ∧ (Rollover.archiveFilePath (Rollover.getMonthKey timestamp1)
       = Rollover.archiveFilePath (Rollover.getMonthKey timestamp2) →
       Rollover.getMonthKey timestamp1 = Rollover.getMonthKey timestamp2).
Proof.
  intros rt timestamp1 timestamp2. split.
  - apply archive_of_month_not_live.
  - apply archiveFilePath_inj.
Qed.

Lemma archive_files_apart_from_live_witness :
  Rollover.getMonthKey (rt := IsoRuntime.runtime) "2025-06-30T23:00:00Z"
  = Rollover.getMonthKey (rt := IsoRuntime.runtime) "2025-06-01T00:00:00Z".
Proof.
  apply (proj2 (archive_files_apart_from_live IsoRuntime.runtime
                  "2025-06-30T23:00:00Z" "2025-06-01T00:00:00Z")).
  by vm_compute.
Defined.

(* ===================================================================== *)
(** * Further properties of the insertion of a sample *)
(* ===================================================================== *)

Section IngestExtras.
Context {rt : JS.Runtime}.

(** The answer is accepted, or the script throws before any file
    operation. *)
Lemma fetchLendingRate_rejected fetched timestampNow w :
  (∃ preRate, accepted fetched preRate)
  ∨ (∃ e, e ≠ IOError ∧ Legacy.fetchLendingRate fetched timestampNow w = (Err e, w)).
Proof.
  unfold Legacy.fetchLendingRate.
  destruct fetched as [|ok body]; [right; by exists NetworkError|].
  destruct ok; cbn [negb]; [|right; by exists HttpError].
  destruct (String.eqb (code body) "0") eqn:Hcode; cbn [negb];
    [|right; by exists InvalidResponse].
  apply String.eqb_eq in Hcode.
  destruct (data body) as [[|entry rest]|] eqn:Hdata;
    [right; by exists InvalidResponse| |right; by exists InvalidResponse].
  destruct (JS.parseFloat (entry_preRate entry)) eqn:Hfin; cbn [JS.isNaN JS.isFinite negb orb];
    [right; by exists InvalidRate|right; by exists InvalidRate|].
  left. exists (entry_preRate entry), body, rest. by destruct entry.
Qed.

(** Whatever the answer and whatever fails, only the live store can
    change. *)
Lemma fetchLendingRate_frame fetched timestampNow w q :
  q ≠ CSV_PATH →
  files (Legacy.fetchLendingRate fetched timestampNow w).2 !! q = files w !! q.
Proof.
  intros Hq. unfold Legacy.fetchLendingRate.
  destruct fetched as [|ok body]; [done|].
  destruct ok; cbn [negb]; [|done].
  destruct (negb (String.eqb (code body) "0")); [done|].
  destruct (data body) as [[|entry rest]|]; [done| |done].
  destruct (JS.isNaN _ || negb _); [done|].
  destruct w as [fs fl tr].
  unfold bind, existsSync, writeFile, readRows, appendFile, attempt, ret, nextFails,
    after. cbn [files faults trace].
  destruct (fs !! CSV_PATH) as [rows|] eqn:Hlive.
  - rewrite bool_decide_true by done.
    destruct fl as [|[] [|[] fl]]; simpl; rewrite ?Hlive; simpl; try done;
      destruct (Legacy.sameHourAsLast rows timestampNow); simpl; try done;
      by rewrite lookup_insert_ne.
  - rewrite bool_decide_false by (by intros [? ?]).
    destruct fl as [|[] [|[] [|[] fl]]]; simpl;
      rewrite ?Hlive, ?lookup_insert_eq; simpl;
      rewrite ?lookup_insert_ne by done; done.
Qed.

(** The insertion of an accepted sample when nothing fails. *)
Lemma fetchLendingRate_quiet fetched preRate timestampNow w :
  accepted fetched preRate →
  faults w = [] →
  ∃ w', Legacy.fetchLendingRate fetched timestampNow w
        = (Ok (if Legacy.sameHourAsLast (store (files w) CSV_PATH) timestampNow
               then SkippedDuplicate else Appended), w')
        ∧ store (files w') CSV_PATH
          = (if Legacy.sameHourAsLast (store (files w) CSV_PATH) timestampNow
             then store (files w) CSV_PATH
             else store (files w) CSV_PATH
                  ++ [{| timestamp := timestampNow; preRate := preRate |}])
        ∧ (Legacy.sameHourAsLast (store (files w) CSV_PATH) timestampNow = false →
           is_Some (files w' !! CSV_PATH))
        ∧ faults w' = [].
Proof.
  intros Hacc Hq. destruct (files w !! CSV_PATH) as [rows|] eqn:Hlive.
  - rewrite (fetchLendingRate_accepted fetched preRate timestampNow w rows Hacc Hlive).
    unfold nextFails, store. rewrite Hq, Hlive. cbn [default from_option id].
    destruct (Legacy.sameHourAsLast rows timestampNow).
    + eexists. split; [done|]. cbn [after files faults]. rewrite Hlive, Hq.
      repeat split; try done; try (by eexists).
    + unfold bind, appendFile, attempt, nextFails. cbn [after faults files]. rewrite Hq.
      cbn [tail]. eexists. split; [done|]. cbn [after files faults].
      rewrite lookup_insert_eq, Hlive, Hq. repeat split; try done; try (by eexists).
  - destruct Hacc as (body & rest & -> & Hcode & Hdata & Hfin).
    unfold Legacy.fetchLendingRate, store. cbn [negb]. rewrite Hcode, Hdata, Hlive.
    cbn [String.eqb Ascii.eqb Bool.eqb negb entry_preRate default from_option].
    rewrite Hfin. cbn [JS.isNaN JS.isFinite negb orb Legacy.sameHourAsLast last].
    destruct w as [fs fl tr]. cbn [files faults] in *. subst fl.
    unfold bind, existsSync, writeFile, readRows, appendFile, attempt, ret, nextFails,
      after. cbn [files faults trace]. rewrite Hlive.
    rewrite bool_decide_false by (by intros [? ?]). simpl.
    rewrite !lookup_insert_eq. simpl. rewrite lookup_insert_eq.
    eexists. split; [done|]. simpl. rewrite lookup_insert_eq.
    repeat split; try done; try (by eexists).
Qed.
End IngestExtras.

(** X8: the hourly fetch checks the answer of the endpoint before it
    touches a file: unless the answer is a sample with a finite rate, the
    script throws, for another reason than a file operation, and no file
    operation is attempted. *)
Theorem fetch_rejects_before_any_file_operation :
  ∀ (rt : JS.Runtime) (fetched : Fetched OKXResponse) (timestampNow : string) (w : World),
    (∃ preRate, accepted fetched preRate)
    ∨ (∃ e, e ≠ IOError
            ∧ Legacy.fetchLendingRate fetched timestampNow w = (Err e, w)).
Proof. intros rt fetched timestampNow w. apply fetchLendingRate_rejected. Qed.

(** X9: when nothing fails, an accepted sample is skipped exactly when the
    last row of the live store has the UTC hour and the local date string
    of the sample; the live store is then as it was, and otherwise it is
    the rows it had followed by the row of the sample. *)
Theorem insertion_appends_unless_last_row_matches :
  ∀ (rt : JS.Runtime) (w : World) (fetched : Fetched OKXResponse)
    (preRate timestampNow : string),
    accepted fetched preRate →
    faults w = [] →
    ∃ w', Legacy.fetchLendingRate fetched timestampNow w
          = (Ok (if Legacy.sameHourAsLast (store (files w) CSV_PATH) timestampNow
                 then SkippedDuplicate else Appended), w')
          ∧ store (files w') CSV_PATH
            = (if Legacy.sameHourAsLast (store (files w) CSV_PATH) timestampNow
               then store (files w) CSV_PATH
               else store (files w) CSV_PATH
                    ++ [{| timestamp := timestampNow; preRate := preRate |}]).
Proof.
  intros rt w fetched preRate timestampNow Hacc Hq.
  destruct (fetchLendingRate_quiet fetched preRate timestampNow w Hacc Hq)
    as (w' & Hrun & Hstore & _). by exists w'.
Qed.

Lemma sample_accepted {rt : JS.Runtime} preRate :
  JS.parseFloat preRate = JS.IsFinite → accepted (sample preRate) preRate.
Proof. intros Hfin. by eexists _, []. Defined.

Lemma insertion_appends_unless_last_row_matches_witness :
  let w := quiet AppendScenario.before in
  ∃ w', Legacy.fetchLendingRate (rt := IsoRuntime.runtime) (sample "0.06")
          "2025-07-01T06:05:00.000Z" w
        = (Ok (if Legacy.sameHourAsLast (rt := IsoRuntime.runtime)
                    (store (files w) CSV_PATH) "2025-07-01T06:05:00.000Z"
               then SkippedDuplicate else Appended), w')
        ∧ store (files w') CSV_PATH
          = (if Legacy.sameHourAsLast (rt := IsoRuntime.runtime)
                  (store (files w) CSV_PATH) "2025-07-01T06:05:00.000Z"
             then store (files w) CSV_PATH
             else store (files w) CSV_PATH
                  ++ [{| timestamp := "2025-07-01T06:05:00.000Z"; preRate := "0.06" |}]).
Proof.
  apply (insertion_appends_unless_last_row_matches IsoRuntime.runtime
           (quiet AppendScenario.before) (sample "0.06") "0.06"
           "2025-07-01T06:05:00.000Z").
  - apply sample_accepted. by vm_compute.
  - reflexivity.
Defined.

(** X10: when the live store is missing or has no row, or its last row has
    a timestamp that is no date, an accepted sample is always inserted,
    if nothing fails: the store file exists afterwards and holds the rows
    it had followed by the row of the sample. *)
Theorem insertion_into_empty_store_appends :
  ∀ (rt : JS.Runtime) (w : World) (fetched : Fetched OKXResponse)
    (preRate timestampNow : string),
    accepted fetched preRate →
    faults w = [] →
    (∀ r, last (store (files w) CSV_PATH) = Some r →
          JS.Date_of_string (timestamp r) = None) →
    ∃ w', Legacy.fetchLendingRate fetched timestampNow w = (Ok Appended, w')
          ∧ files w' !! CSV_PATH
            = Some (store (files w) CSV_PATH
                    ++ [{| timestamp := timestampNow; preRate := preRate |}]).
Proof.
  intros rt w fetched preRate timestampNow Hacc Hq Hlast.
  destruct (fetchLendingRate_quiet fetched preRate timestampNow w Hacc Hq)
    as (w' & Hrun & Hstore & Hsome & _).
  assert (Legacy.sameHourAsLast (store (files w) CSV_PATH) timestampNow = false) as Hdup.
  { unfold Legacy.sameHourAsLast.
    destruct (last (store (files w) CSV_PATH)) as [r|] eqn:Hr; [|done].
    by rewrite (Hlast r eq_refl). }
  rewrite Hdup in *. exists w'. split; [done|].
  destruct (Hsome eq_refl) as [rows Hrows].
  unfold store in Hstore at 1. rewrite Hrows in Hstore. cbn [default from_option id] in Hstore.
  by rewrite Hrows, Hstore.
Qed.

Lemma insertion_into_empty_store_appends_witness :
  ∃ w', Legacy.fetchLendingRate (rt := IsoRuntime.runtime) (sample "0.06")
          "2025-07-01T06:05:00.000Z" (quiet ∅) = (Ok Appended, w')
        ∧ files w' !! CSV_PATH
          = Some (store (files (quiet ∅)) CSV_PATH
                  ++ [{| timestamp := "2025-07-01T06:05:00.000Z"; preRate := "0.06" |}]).
Proof.
  apply (insertion_into_empty_store_appends IsoRuntime.runtime (quiet ∅)
           (sample "0.06") "0.06" "2025-07-01T06:05:00.000Z").
  - apply sample_accepted. by vm_compute.
  - reflexivity.
  - intros r Hr. discriminate Hr.
Defined.

(** X11: whatever the endpoint answers and whatever fails, the hourly fetch
    of [src/fetchRate.ts] changes no file other than the live store. *)
Theorem insertion_changes_only_live_store :
  ∀ (rt : JS.Runtime) (fetched : Fetched OKXResponse) (timestampNow : string)
    (w : World) (path : string),
    path ≠ CSV_PATH →
    files (Legacy.fetchLendingRate fetched timestampNow w).2 !! path = files w !! path.
Proof. intros rt fetched timestampNow w path. apply fetchLendingRate_frame. Qed.

Lemma insertion_changes_only_live_store_witness :
  files (Legacy.fetchLendingRate (rt := IsoRuntime.runtime) (sample "0.06")
           "2025-07-01T06:05:00.000Z" (quiet ArchiveScenario.before)).2
    !! "data/2025-06.csv"
  = Some [row "2025-06-01T00:00:00Z" "0.03"].
Proof.
  rewrite (insertion_changes_only_live_store IsoRuntime.runtime (sample "0.06")
             "2025-07-01T06:05:00.000Z" (quiet ArchiveScenario.before)
             "data/2025-06.csv").
  - reflexivity.
  - discriminate.
Defined.

(* ===================================================================== *)
(** * Further properties of the backfill *)
(* ===================================================================== *)

Section BackfillExtras.
Context {rt : JS.Runtime}.
Import History.

(** The ISO timestamp of an entry; [None] when its [ts] is no time
    value. *)
Definition isoOfEntry (record : HistoryEntry) : option string :=
  JS.toISOString (JS.Date_of_Num (JS.parseInt (ts record))).

Lemma convertRecords_ok entries w records :
  (convertRecords entries w).1 = Ok records →
  Forall2 (λ e r, isoOfEntry e = Some (timestamp r) ∧ preRate r = rate e)
          entries records.
Proof.
  revert records. induction entries as [|e entries IH]; intros records Hrun.
  - cbn in Hrun. injection Hrun as <-. constructor.
  - cbn [convertRecords] in Hrun. unfold isoOfEntry at 1.
    destruct (JS.toISOString _) as [iso|] eqn:Hiso; [|discriminate Hrun].
    unfold bind in Hrun.
    destruct (convertRecords entries w) as [[rest|err] w1] eqn:Hrest;
      [|discriminate Hrun].
    cbn in Hrun. injection Hrun as <-. constructor; [done|]. by apply IH.
Qed.

Lemma convertRecords_bad entries w e :
  e ∈ entries → isoOfEntry e = None →
  convertRecords entries w = (Err RangeErrorDate, w).
Proof.
  intros Hin Hbad. induction entries as [|e0 entries IH]; [by apply elem_of_nil in Hin|].
  cbn [convertRecords]. fold (isoOfEntry e0).
  destruct (isoOfEntry e0) as [iso|] eqn:Hiso; [|done].
  apply elem_of_cons in Hin as [->|Hin]; [congruence|].
  unfold bind. by rewrite IH.
Qed.

Lemma elem_of_Forall2_r {A B} (P : A → B → Prop) l k y :
  Forall2 P l k → y ∈ k → ∃ x, x ∈ l ∧ P x y.
Proof.
  induction 1 as [|x y' l k Hxy _ IH]; intros Hin; [by apply elem_of_nil in Hin|].
  apply elem_of_cons in Hin as [->|Hin].
  - exists x. split; [left | done].
  - destruct (IH Hin) as (x' & Hx' & HP). exists x'. split; [by right | done].
Qed.

Lemma fetchHistoricalRates_ok startDate endDate fetched w rows :
  (fetchHistoricalRates startDate endDate fetched w).1 = Ok rows →
  nonDecreasing rows
  ∧ ∀ r, r ∈ rows →
         onTargetDay endDate r = true
         ∧ ∃ body entries e,
             fetched = Http true body ∧ data body = Some entries ∧ e ∈ entries
             ∧ isoOfEntry e = Some (timestamp r) ∧ preRate r = rate e.
Proof.
  unfold fetchHistoricalRates. destruct fetched as [|ok body]; [done|].
  destruct ok; cbn [negb]; [|done].
  destruct (negb (String.eqb (code body) "0")); [done|].
  destruct (data body) as [[|e es]|] eqn:Hdata.
  - intros Hrun. cbn in Hrun. injection Hrun as <-. split; [constructor|].
    intros r Hr. by apply elem_of_nil in Hr.
  - unfold bind.
    destruct (convertRecords (e :: es) w) as [[records|err] w1] eqn:Hconv; [|done].
    intros Hrun. cbn in Hrun. injection Hrun as <-.
    split; [apply sortByTime_sorted|].
    intros r Hr. rewrite elem_of_sortByTime in Hr.
    apply list_elem_of_In, filter_In in Hr as [Hr Hday].
    split; [done|]. apply list_elem_of_In in Hr.
    assert ((convertRecords (e :: es) w).1 = Ok records) as Hok by by rewrite Hconv.
    apply convertRecords_ok in Hok.
    destruct (elem_of_Forall2_r _ _ _ _ Hok Hr) as (e' & He' & Hiso & Hrate).
    by exists body, (e :: es), e'.
  - intros Hrun. cbn in Hrun. injection Hrun as <-. split; [constructor|].
    intros r Hr. by apply elem_of_nil in Hr.
Qed.

Lemma fetchLendingRate_frame_backfill now fetch w q :
  q ≠ CSV_PATH → files (fetchLendingRate now fetch w).2 !! q = files w !! q.
Proof.
  intros Hq. unfold fetchLendingRate, bind.
  rewrite (fetchMonthSoFar_pure now fetch w w).
  destruct (fetchMonthSoFar now fetch w).1 as [[|r batch]|e]; try done.
  by apply writeFile_frame.
Qed.
End BackfillExtras.

(** X12: the rows that a request of the backfill returns are in
    non-decreasing order of time, each of them passes the filter of the
    day of the end date, and each comes from an entry of the answer, with
    the rate of the entry as it was sent and the ISO timestamp of its
    [ts]. *)
Theorem history_rows_on_target_day_sorted :
  ∀ (rt : JS.Runtime) (startDate endDate : string)
    (fetched : Fetched History.OKXHistoryResponse) (w : World)
    (rows : list RateRecord),
    (History.fetchHistoricalRates startDate endDate fetched w).1 = Ok rows →
    nonDecreasing rows
    ∧ ∀ r, r ∈ rows →
           History.onTargetDay endDate r = true
           ∧ ∃ body entries e,
               fetched = Http true body ∧ History.data body = Some entries
               ∧ e ∈ entries
               ∧ JS.toISOString (JS.Date_of_Num (JS.parseInt (History.ts e)))
                 = Some (timestamp r)
               ∧ preRate r = History.rate e.
Proof. intros rt startDate endDate fetched w rows. apply fetchHistoricalRates_ok. Qed.

Lemma history_rows_on_target_day_sorted_witness :
  nonDecreasing (rt := IsoRuntime.runtime)
    [row "2025-07-01T00:00:00.000Z" "0.06"; row "2025-07-01T01:00:00.000Z" "0.07"].
Proof.
  apply (history_rows_on_target_day_sorted IsoRuntime.runtime
           "2025-06-30T23:59:59Z" "2025-07-01T01:59:59Z"
           (history BackfillScenario.entries "" "") (quiet ∅)).
  by vm_compute.
Defined.

(** X13: an entry whose [ts] is no time value makes the request throw a
    range error, whatever the day of the other entries: no row of the
    answer is returned. *)
Theorem history_bad_timestamp_aborts_request :
  ∀ (rt : JS.Runtime) (startDate endDate : string) (body : History.OKXHistoryResponse)
    (entries : list History.HistoryEntry) (e : History.HistoryEntry) (w : World),
    History.code body = "0" →
    History.data body = Some entries →
    e ∈ entries →
    JS.toISOString (JS.Date_of_Num (JS.parseInt (History.ts e))) = None →
    History.fetchHistoricalRates startDate endDate (Http true body) w
    = (Err RangeErrorDate, w).
Proof.
  intros rt startDate endDate body entries e w Hcode Hdata Hin Hbad.
  unfold History.fetchHistoricalRates. cbn [negb]. rewrite Hcode, Hdata.
  cbn [String.eqb Ascii.eqb Bool.eqb negb].
  destruct entries as [|e0 es]; [by apply elem_of_nil in Hin|].
  unfold bind. by rewrite (convertRecords_bad (e0 :: es) w e Hin Hbad).
Qed.

Lemma history_bad_timestamp_aborts_request_witness :
  History.fetchHistoricalRates (rt := IsoRuntime.runtime)
    "2025-06-30T23:59:59Z" "2025-07-01T01:59:59Z"
    (history [ {| History.ts := "1751328000000"; History.rate := "0.06" |};
               {| History.ts := "soon"; History.rate := "0.07" |} ] "" "")
    (quiet ∅)
  = (Err RangeErrorDate, quiet ∅).
Proof.
  apply (history_bad_timestamp_aborts_request IsoRuntime.runtime
           "2025-06-30T23:59:59Z" "2025-07-01T01:59:59Z" _
           [ {| History.ts := "1751328000000"; History.rate := "0.06" |};
             {| History.ts := "soon"; History.rate := "0.07" |} ]
           {| History.ts := "soon"; History.rate := "0.07" |}).
  - reflexivity.
  - reflexivity.
  - right. left.
  - by vm_compute.
Defined.

(** X14: the backfill writes only after every request of the month has
    returned: when a request throws, the backfill throws the same error
    and no file operation is attempted. *)
Theorem backfill_writes_nothing_when_a_request_fails :
  ∀ (rt : JS.Runtime) (now : Z)
    (fetch : string → string → Fetched History.OKXHistoryResponse)
    (w : World) (e : Error),
    (History.fetchMonthSoFar now fetch w).1 = Err e →
    History.fetchLendingRate now fetch w = (Err e, w).
Proof.
  intros rt now fetch w e Hfail. unfold History.fetchLendingRate, bind.
  by rewrite (fetchMonthSoFar_pure now fetch w w), Hfail.
Qed.

Lemma backfill_writes_nothing_when_a_request_fails_witness :
  History.fetchLendingRate (rt := IsoRuntime.runtime) BackfillScenario.now
    (λ _ _, Http false {| History.code := "0"; History.data := None; History.msg := "" |})
    (quiet BackfillScenario.before)
  = (Err HttpError, quiet BackfillScenario.before).
Proof.
  apply (backfill_writes_nothing_when_a_request_fails IsoRuntime.runtime).
  by vm_compute.
Defined.

(** X15: whatever the endpoint answers and whatever fails, the backfill
    changes no file other than the live store. *)
Theorem backfill_changes_only_live_store :
  ∀ (rt : JS.Runtime) (now : Z)
    (fetch : string → string → Fetched History.OKXHistoryResponse)
    (w : World) (path : string),
    path ≠ CSV_PATH →
    files (History.fetchLendingRate now fetch w).2 !! path = files w !! path.
Proof. intros rt now fetch w path. apply fetchLendingRate_frame_backfill. Qed.

Lemma backfill_changes_only_live_store_witness :
  files (History.fetchLendingRate (rt := IsoRuntime.runtime) BackfillScenario.now
           (history BackfillScenario.entries) (quiet ArchiveScenario.before)).2
    !! "data/2025-06.csv"
  = Some [row "2025-06-01T00:00:00Z" "0.03"].
Proof.
  rewrite (backfill_changes_only_live_store IsoRuntime.runtime BackfillScenario.now
             (history BackfillScenario.entries) (quiet ArchiveScenario.before)
             "data/2025-06.csv").
  - reflexivity.
  - discriminate.
Defined.

(* ===================================================================== *)
(** * The hourly fetch as a whole *)
(* ===================================================================== *)

(** X16: when nothing fails and the endpoint answers with a sample of
    finite rate, the hourly fetch with rollover returns, and every row of
    the live store is afterwards of the month of the clock reading of the
    rollover, the row of the sample apart. *)
Theorem hourly_fetch_keeps_live_store_to_current_month :
  ∀ (rt : JS.Runtime) (fs : Files) (fetched : Fetched OKXResponse)
    (preRate now timestampNow : string),
    accepted fetched preRate →
    ∃ outcome w',
      Rollover.fetchLendingRate now fetched timestampNow (quiet fs) = (Ok outcome, w')
      ∧ ∀ r, r ∈ store (files w') CSV_PATH →
             monthKeyOf r = Rollover.getMonthKey now
             ∨ r = {| timestamp := timestampNow; preRate := preRate |}.
Proof.
  intros rt fs fetched preRate now timestampNow Hacc.
  destruct (performRollover_quiet now (quiet fs)) as (w1 & Hrun1 & Hfiles1 & Hq1); [done|].
  destruct (fetchLendingRate_quiet fetched preRate timestampNow w1 Hacc Hq1)
    as (w' & Hrun & Hstore & _).
  eexists _, w'. unfold Rollover.fetchLendingRate, bind. rewrite Hrun1, Hrun.
  split; [done|]. intros r Hr. rewrite Hstore in Hr.
  assert (∀ r, r ∈ store (files w1) CSV_PATH → monthKeyOf r = Rollover.getMonthKey now)
    as Hcur by (intros r' Hr'; rewrite Hfiles1 in Hr'; by apply rolledFiles_live_current in Hr').
  destruct (Legacy.sameHourAsLast _ _); [left; by apply Hcur|].
  apply elem_of_app in Hr as [Hr|Hr]; [left; by apply Hcur|].
  right. by apply list_elem_of_singleton in Hr.
Qed.

Lemma hourly_fetch_keeps_live_store_to_current_month_witness :
  ∃ outcome w',
    Rollover.fetchLendingRate (rt := IsoRuntime.runtime) RolloverScenario.now
      (sample "0.06") "2025-07-01T01:05:01.000Z" (quiet RolloverScenario.before)
    = (Ok outcome, w')
    ∧ ∀ r, r ∈ store (files w') CSV_PATH →
           monthKeyOf (rt := IsoRuntime.runtime) r
           = Rollover.getMonthKey (rt := IsoRuntime.runtime) RolloverScenario.now
           ∨ r = {| timestamp := "2025-07-01T01:05:01.000Z"; preRate := "0.06" |}.
Proof.
  apply (hourly_fetch_keeps_live_store_to_current_month IsoRuntime.runtime
           RolloverScenario.before (sample "0.06") "0.06" RolloverScenario.now
           "2025-07-01T01:05:01.000Z").
  apply sample_accepted. by vm_compute.
Defined.

(** X17: in the hourly fetch with rollover the rollover runs before the
    answer of the endpoint is checked: when the rollover returns and the
    answer is rejected, the script throws, for another reason than a file
    operation, and leaves the world as the rollover alone leaves it. *)
Theorem hourly_fetch_rejected_after_rollover :
  ∀ (rt : JS.Runtime) (w : World) (fetched : Fetched OKXResponse)
    (now timestampNow : string),
    (Rollover.performRollover now w).1 = Ok tt →
    (∀ preRate, ¬ accepted fetched preRate) →
    ∃ e, e ≠ IOError
         ∧ Rollover.fetchLendingRate now fetched timestampNow w
           = (Err e, (Rollover.performRollover now w).2).
Proof.
  intros rt w fetched now timestampNow Hroll Hrej.
  unfold Rollover.fetchLendingRate, bind.
  destruct (Rollover.performRollover now w) as [[[]|e0] w1]; [|discriminate Hroll].
  destruct (fetchLendingRate_rejected fetched timestampNow w1)
    as [[preRate Hacc]|(e & He & Hrun)]; [by apply Hrej in Hacc|].
  exists e. by rewrite Hrun.
Qed.

Lemma hourly_fetch_rejected_after_rollover_witness :
  ∃ e, e ≠ IOError
       ∧ Rollover.fetchLendingRate (rt := IsoRuntime.runtime) RolloverScenario.now
           FetchThrows "2025-07-01T01:05:01.000Z" (quiet RolloverScenario.before)
         = (Err e, RolloverScenario.run.2).
Proof.
  apply (hourly_fetch_rejected_after_rollover IsoRuntime.runtime
           (quiet RolloverScenario.before) FetchThrows RolloverScenario.now
           "2025-07-01T01:05:01.000Z").
  - by vm_compute.
  - intros preRate (body & rest & Hf & _). discriminate Hf.
Defined.

(* ===================================================================== *)
(** * The names of the archives *)
(* ===================================================================== *)

(** The filter of the chart script on the names of the files of the data
    directory, [/^\d{4}-\d{2}\.csv$/]: four digits, a hyphen, two digits
    and the extension. *)
Definition matchesArchivePattern (file : string) : bool :=
  match file with
  | String y1 (String y2 (String y3 (String y4 (String "-"
      (String m1 (String m2 ".csv")))))) =>
      forallb IsoRuntime.isDigit [y1; y2; y3; y4; m1; m2]
  | _ => false
  end.

(** The month key of a year and a month number. *)
Definition monthKeyOfDate (year month : Z) : string :=
  JS.String_of_Z year +:+ "-" +:+ JS.padStart (JS.String_of_Z month) 2 "0".

(** The strings of exactly four, and of exactly two, decimal digits. *)
Definition fourDigits (s : string) : bool :=
  match s with
  | String a (String b (String c (String d ""))) =>
      forallb IsoRuntime.isDigit [a; b; c; d]
  | _ => false
  end.

Definition twoDigits (s : string) : bool :=
  match s with
  | String a (String b "") => forallb IsoRuntime.isDigit [a; b]
  | _ => false
  end.

Lemma String_of_Z_four_digits :
  forallb (λ year, fourDigits (JS.String_of_Z year)) (seqZ 1000 9000) = true.
Proof. by vm_compute. Qed.

Lemma padStart_month_two_digits :
  forallb (λ month, twoDigits (JS.padStart (JS.String_of_Z month) 2 "0")) (seqZ 1 12)
  = true.
Proof. by vm_compute. Qed.

Lemma matchesArchivePattern_parts (year month : string) :
  fourDigits year = true → twoDigits month = true →
  matchesArchivePattern (year +:+ "-" +:+ month +:+ ".csv") = true.
Proof.
  destruct year as [|a [|b [|c [|d [|? ?]]]]]; try discriminate.
  destruct month as [|m1 [|m2 [|? ?]]]; try discriminate.
  cbn [fourDigits twoDigits forallb]. autorewrite with strings.
  cbn [matchesArchivePattern forallb].
  intros Hy Hm.
  apply andb_prop in Hy as [H Hy]. apply andb_prop in Hy as [H0 Hy].
  apply andb_prop in Hy as [H1 Hy]. apply andb_prop in Hy as [H2 _].
  apply andb_prop in Hm as [H3 Hm]. apply andb_prop in Hm as [H4 _].
  by rewrite H, H0, H1, H2, H3, H4.
Qed.

Lemma append_assoc (a b c : string) : (a +:+ b) +:+ c = a +:+ (b +:+ c).
Proof.
  induction a as [|x a IH]; autorewrite with strings; [done | by rewrite IH].
Qed.

Lemma monthKeyOfDate_four_digit_years year month :
  1000 <= year <= 9999 → 1 <= month <= 12 →
  matchesArchivePattern (monthKeyOfDate year month +:+ ".csv") = true.
Proof.
  intros Hy Hm. unfold monthKeyOfDate.
  rewrite !append_assoc. apply matchesArchivePattern_parts.
  - pose proof String_of_Z_four_digits as Hall. rewrite forallb_forall in Hall.
    apply Hall, list_elem_of_In, elem_of_seqZ. lia.
  - pose proof padStart_month_two_digits as Hall. rewrite forallb_forall in Hall.
    apply (Hall month), list_elem_of_In, elem_of_seqZ. lia.
Qed.

Lemma civil_month_range (z : Z) : 1 <= (JS.civil_from_days z).1.2 <= 12.
Proof.
  unfold JS.civil_from_days. cbn [fst snd].
  set (era := (z + 719468) / 146097).
  set (doe := z + 719468 - era * 146097).
  assert (0 <= doe < 146097) as Hdoe by (subst doe era; Z.div_mod_to_equations; lia).
  set (yoe := (doe - doe / 1460 + doe / 36524 - doe / 146096) / 365).
  assert (0 <= yoe < 400) as Hyoe by (subst yoe; Z.div_mod_to_equations; lia).
  set (doy := doe - (365 * yoe + yoe / 4 - yoe / 100)).
  assert (0 <= doy < 366) as Hdoy by (subst doy yoe; Z.div_mod_to_equations; lia).
  set (mp := (5 * doy + 2) / 153).
  assert (0 <= mp < 12) as Hmp by (subst mp; Z.div_mod_to_equations; lia).
  destruct (Z.ltb_spec mp 10); lia.
Qed.

(** X18: the month key of a timestamp whose UTC year has four digits is
    [YYYY-MM], so that the archive the rollover writes for it has a name
    that the filter of the chart script accepts; the key of a timestamp
    that is no date is [NaN-NaN], whose archive the filter rejects. *)
Theorem month_key_matches_archive_pattern :
  ∀ (rt : JS.Runtime) (timestamp : string),
    (∀ t, JS.Date_of_string timestamp = Some t →
          1000 <= JS.YearFromTime t <= 9999 →
          matchesArchivePattern (Rollover.getMonthKey timestamp +:+ ".csv") = true)
    ∧ (JS.Date_of_string timestamp = None →
       matchesArchivePattern (Rollover.getMonthKey timestamp +:+ ".csv") = false).
Proof.
  intros rt timestamp. split.
  - intros t Ht Hyear. unfold Rollover.getMonthKey. rewrite Ht.
    change (matchesArchivePattern
              (monthKeyOfDate (JS.YearFromTime t) (JS.MonthFromTime t + 1) +:+ ".csv")
            = true).
    apply monthKeyOfDate_four_digit_years; [done|].
    pose proof (civil_month_range (JS.Day t)) as Hm.
    unfold JS.MonthFromTime. cbn [fst snd] in *. lia.
  - intros Ht. by rewrite (getMonthKey_invalid timestamp Ht).
Qed.

Lemma month_key_matches_archive_pattern_witness :
  matchesArchivePattern
    (Rollover.getMonthKey (rt := IsoRuntime.runtime) "2025-06-30T23:00:00Z" +:+ ".csv")
  = true.
Proof.
  apply (proj1 (month_key_matches_archive_pattern IsoRuntime.runtime
                  "2025-06-30T23:00:00Z") 1751324400000).
  - by vm_compute.
  - by vm_compute.
Defined.

(* ===================================================================== *)
(** * Rollovers that return *)
(* ===================================================================== *)

Section RolloverReturns.
Context {rt : JS.Runtime}.
Import Rollover.

Lemma writeCsvData_ok path rows w w' :
  rows ≠ [] →
  writeCsvData path rows false w = (Ok tt, w') →
  files w' = <[path := rows]> (files w).
Proof.
  intros Hne. destruct rows as [|r rows]; [done|]. destruct w as [fs fl tr].
  unfold writeCsvData, bind, writeFile, attempt, nextFails, after.
  destruct fl as [|[] [|[] fl]]; simpl; intros Hrun; simplify_eq;
    simpl; apply insert_insert_eq.
Qed.

Lemma archiveMonths_ok cur groups h w b w' :
  Forall (λ g, g.2 ≠ []) groups →
  archiveMonths cur groups h w = (Ok b, w') →
  files w' = archivedFiles cur groups (files w) ∧ b = h || hasOldMonth cur groups.
Proof.
  revert h w. induction groups as [|[k l] rest IH]; intros h w Hne Hrun.
  - unfold archiveMonths, ret in Hrun. simplify_eq. split; [done|].
    symmetry. apply orb_false_r.
  - apply Forall_cons in Hne as [Hl Hne]. cbn [archiveMonths archivedFiles] in *.
    unfold hasOldMonth. cbn [existsb]. unfold isOld at 1. cbn [fst].
    destruct (decide (k ≠ cur)) as [Hk|Hk].
    + rewrite bool_decide_true by done. unfold bind in Hrun.
      destruct (writeCsvData (archiveFilePath k) (sortByTime l) false w)
        as [[[]|e] w1] eqn:Hw; [|discriminate Hrun].
      apply writeCsvData_ok in Hw; [|by apply sortByTime_nonempty].
      destruct (IH true w1 Hne Hrun) as [Hf ->]. rewrite Hf, Hw.
      split; [done|]. by rewrite orb_true_r.
    + rewrite bool_decide_false by done. by apply IH.
Qed.

Lemma writeFile_ok path rows w w' :
  writeFile path rows w = (Ok tt, w') → files w' = <[path := rows]> (files w).
Proof.
  unfold writeFile, attempt. destruct (nextFails w); intros Hrun; by simplify_eq.
Qed.

Lemma performRollover_ok now w w' :
  performRollover now w = (Ok tt, w') → files w' = rolledFiles now (files w).
Proof.
  destruct (files w !! CSV_PATH) as [rows|] eqn:Hlive.
  2:{ rewrite performRollover_missing by done. intros Hrun. simplify_eq.
      unfold rolledFiles. by rewrite Hlive. }
  rewrite (performRollover_live now w rows Hlive). unfold rolledFiles. rewrite Hlive.
  destruct (nextFails w); [done|].
  destruct rows as [|r0 rows]; [intros Hrun; by simplify_eq|].
  unfold bind.
  destruct (archiveMonths _ _ _ _) as [[b|e] w1] eqn:Hloop; [|done].
  apply archiveMonths_ok in Hloop as [Hf1 ->]; [|apply groupByMonth_nonempty].
  cbn [orb after files] in *.
  destruct (hasOldMonth _ _) eqn:Hold.
  2:{ unfold ret. intros Hrun. simplify_eq. rewrite Hf1.
      by apply archivedFiles_no_old. }
  destruct (default [] _) as [|c cs] eqn:Hcur.
  - intros Hrun%writeFile_ok. by rewrite Hrun, Hf1.
  - intros Hrun%writeCsvData_ok; [|by apply sortByTime_nonempty].
    by rewrite Hrun, Hf1.
Qed.
End RolloverReturns.

(** X19: a rollover that returns, in a world where file operations can
    fail, leaves the files exactly as the rollover of the same files does
    when nothing can fail: the archive of every other month of the live
    store is written in full, and so is the live store. *)
Theorem rollover_that_returns_is_complete :
  ∀ (rt : JS.Runtime) (w w' : World) (now : string),
    Rollover.performRollover now w = (Ok tt, w') →
    files w' = files (Rollover.performRollover now (quiet (files w))).2.
Proof.
  intros rt w w' now Hrun. apply performRollover_ok in Hrun.
  destruct (performRollover_quiet now (quiet (files w))) as (w2 & Hrun2 & Hf2 & _);
    [done|].
  rewrite Hrun2, Hrun. cbn [snd]. by rewrite Hf2.
Qed.

Lemma rollover_that_returns_is_complete_witness :
  files (Rollover.performRollover (rt := IsoRuntime.runtime) RolloverScenario.now
           {| files := RolloverScenario.before;
              faults := [false; false; false; false; false; true];
              trace := [] |}).2
  = files (Rollover.performRollover (rt := IsoRuntime.runtime) RolloverScenario.now
             (quiet RolloverScenario.before)).2.
Proof.
  apply (rollover_that_returns_is_complete IsoRuntime.runtime
           {| files := RolloverScenario.before;
              faults := [false; false; false; false; false; true];
              trace := [] |} _ RolloverScenario.now).
  by vm_compute.
Defined.

(* ===================================================================== *)
(** * The rows of the live store and the outcome of the hourly fetch *)
(* ===================================================================== *)

Section OutcomeFacts.
Context {rt : JS.Runtime}.

(** The rows of the live store grow, by one row, exactly when the script
    reports that it has appended. *)
Lemma fetchLendingRate_outcome fetched timestampNow w :
  match (Legacy.fetchLendingRate fetched timestampNow w).1 with
  | Ok Appended =>
      ∃ preRate,
        store (files (Legacy.fetchLendingRate fetched timestampNow w).2) CSV_PATH
        = store (files w) CSV_PATH
          ++ [{| timestamp := timestampNow; preRate := preRate |}]
  | _ =>
      store (files (Legacy.fetchLendingRate fetched timestampNow w).2) CSV_PATH
      = store (files w) CSV_PATH
  end.
Proof.
  unfold Legacy.fetchLendingRate.
  destruct fetched as [|ok body]; [done|].
  destruct ok; cbn [negb]; [|done].
  destruct (negb (String.eqb (code body) "0")); [done|].
  destruct (data body) as [[|entry rest]|]; [done| |done].
  destruct (JS.isNaN _ || negb _); [done|].
  destruct w as [fs fl tr].
  unfold bind, existsSync, writeFile, readRows, appendFile, attempt, ret, nextFails,
    after, store. cbn [files faults trace].
  destruct (fs !! CSV_PATH) as [rows|] eqn:Hlive.
  - rewrite bool_decide_true by done.
    destruct fl as [|[] [|[] fl]]; simpl; rewrite ?Hlive; simpl; try done;
      destruct (Legacy.sameHourAsLast rows timestampNow); simpl; rewrite ?Hlive;
      try done;
      eexists; rewrite lookup_insert_eq; reflexivity.
  - rewrite bool_decide_false by (by intros [? ?]).
    destruct fl as [|[] [|[] [|[] fl]]]; simpl;
      rewrite ?Hlive, ?lookup_insert_eq; simpl;
      rewrite ?Hlive, ?lookup_insert_eq; try done;
      eexists; reflexivity.
Qed.
End OutcomeFacts.

(** X20: whatever the endpoint answers and whatever fails, the hourly
    fetch of [src/fetchRate.ts] changes the rows of the live store only
    when it reports an append, and then by adding one row, with the
    timestamp of the sample, at the end; when it throws or skips, the rows
    are those the store had. *)
Theorem insertion_changes_rows_only_when_appended :
  ∀ (rt : JS.Runtime) (fetched : Fetched OKXResponse) (timestampNow : string)
    (w : World),
    ((Legacy.fetchLendingRate fetched timestampNow w).1 = Ok Appended →
     ∃ preRate,
       store (files (Legacy.fetchLendingRate fetched timestampNow w).2) CSV_PATH
       = store (files w) CSV_PATH
         ++ [{| timestamp := timestampNow; preRate := preRate |}])
    ∧ ((Legacy.fetchLendingRate fetched timestampNow w).1 ≠ Ok Appended →
       store (files (Legacy.fetchLendingRate fetched timestampNow w).2) CSV_PATH
       = store (files w) CSV_PATH).
Proof.
  intros rt fetched timestampNow w.
  pose proof (fetchLendingRate_outcome fetched timestampNow w) as H.
  destruct (Legacy.fetchLendingRate fetched timestampNow w).1 as [[]|e];
    split; intros Ho; try done.
Qed.

Lemma insertion_changes_rows_only_when_appended_witness :
  store (files (Legacy.fetchLendingRate (rt := IsoRuntime.runtime) (sample "0.06")
                  "2025-07-01T06:05:00.000Z"
                  {| files := AppendScenario.before; faults := [false; true];
                     trace := [] |}).2) CSV_PATH
  = store AppendScenario.before CSV_PATH.
Proof.
  apply (proj2 (insertion_changes_rows_only_when_appended IsoRuntime.runtime
                  (sample "0.06") "2025-07-01T06:05:00.000Z"
                  {| files := AppendScenario.before; faults := [false; true];
                     trace := [] |})).
  by vm_compute.
Defined.
